(** * update-prompts: the marked-block patcher of [scripts/update-prompts.py]

    A shallow embedding of [encode_prompts] and [update_env_file], with the
    string operations of Python they rely on, and the properties of the
    patcher stated over it.

    Python text ([str]) is a sequence of Unicode code points; binary data
    ([bytes]) is a sequence of octets.  Both are lists of numbers here. *)

From Stdlib Require Import NArith ZArith Bool Lia ZifyN.
From Stdlib Require Import Strings.Ascii Strings.String.
From stdpp Require Import base option list gmap.

Local Open Scope N_scope.

(** ** Text and bytes *)

(** A Unicode code point. *)
Definition char : Type := N.

(** Python [str]. *)
Abbreviation str := (list char).

(** An octet (a value below 256). *)
Definition byte : Type := N.

(** Python [bytes]. *)
Abbreviation bytes := (list byte).

(** A string literal of the source: its characters are ASCII, so each one is
    the code point of the same number. *)
Definition lit (s : string) : str :=
  List.map N_of_ascii (list_ascii_of_string s).

(** The line separator ["\n"]. *)
Definition nl : char := 10.

Module Text.

(** [s.startswith(prefix)] *)
Fixpoint startswith (prefix s : str) : bool :=
  match prefix, s with
  | [], _ => true
  | _ :: _, [] => false
  | p :: prefix', c :: s' => (p =? c) && startswith prefix' s'
  end.

(** [needle in hay]: substring test. *)
Fixpoint str_in (needle hay : str) : bool :=
  startswith needle hay ||
  match hay with
  | [] => false
  | _ :: hay' => str_in needle hay'
  end.

(** [s.endswith(suffix)] *)
Definition endswith (suffix s : str) : bool :=
  startswith (rev suffix) (rev s).

(** [s.split(sep)] for a separator of one character: the pieces between the
    occurrences of [sep]; never empty, [ [""] ] for the empty string. *)
Fixpoint split (sep : char) (s : str) : list str :=
  match s with
  | [] => [[]]
  | c :: s' =>
      if c =? sep then [] :: split sep s'
      else match split sep s' with
           | [] => [[c]]
           | piece :: pieces => (c :: piece) :: pieces
           end
  end.

(** [sep.join(items)] *)
Fixpoint join (sep : str) (items : list str) : str :=
  match items with
  | [] => []
  | [x] => x
  | x :: items' => x ++ sep ++ join sep items'
  end.

(** [s.replace(old, new)] for [old] and [new] of one character each. *)
Definition replace (old new : char) (s : str) : str :=
  List.map (fun c => if c =? old then new else c) s.

End Text.

Import Text.

(** ** The sentinels *)

Definition START_MARKER : str :=
  lit "# --- AUTO-GENERATED PROMPTS START (DO NOT EDIT MANUALLY) ---".

Definition END_MARKER : str :=
  lit "# --- AUTO-GENERATED PROMPTS END ---".

(** ** The patcher *)

(** The section written between and including the sentinels:
    ["\n".join([START_MARKER, *prompt_lines, END_MARKER])]. *)
Definition new_section (prompt_lines : list str) : str :=
  join [nl] (START_MARKER :: prompt_lines ++ [END_MARKER]).

(** One iteration of the replacement loop of [update_env_file], on the state
    [(new_lines, skip)]. *)
Definition loop_body (section : str) (st : list str * bool) (line : str)
  : list str * bool :=
  let '(new_lines, skip) := st in
  if str_in START_MARKER line then (new_lines ++ [section], true)
  else if str_in END_MARKER line then (new_lines, false)
  else if negb skip then (new_lines ++ [line], skip)
  else (new_lines, skip).

(** The whole loop [for line in lines], from [new_lines = []] and
    [skip = False]. *)
Definition replace_loop (section : str) (lines : list str) : list str * bool :=
  fold_left (loop_body section) lines ([], false).

(** The value [new_content] that [update_env_file] computes from the text
    [content] it has read and from [prompt_lines]. *)
Definition new_content (content : str) (prompt_lines : list str) : str :=
  let section := new_section prompt_lines in
  let has_start := str_in START_MARKER content in
  let has_end := str_in END_MARKER content in
  if has_start && has_end then
    let lines := split nl content in
    let new_lines := fst (replace_loop section lines) in
    join [nl] new_lines
  else
    let content :=
      if negb (endswith [nl] content) then content ++ [nl] else content in
    content ++ [nl] ++ section ++ [nl].

(** A text in which neither sentinel occurs. *)
Definition marker_free (line : str) : bool :=
  negb (str_in START_MARKER line) && negb (str_in END_MARKER line).

(** A line as the replacement leaves it: the new section, or one line of
    text in which no sentinel occurs. *)
Definition settled (section item : str) : Prop :=
  item = section \/ (marker_free item = true /\ nl ∉ item).

(** A well-formed managed block: both sentinel lines, the start one strictly
    before the end one. *)
Definition well_formed_block (content : str) : Prop :=
  exists before mid after,
    split nl content = before ++ [START_MARKER] ++ mid ++ [END_MARKER] ++ after.

(** The lines of [content] are [before], the start sentinel, [mid], the end
    sentinel and [after], and neither sentinel text occurs in any line of
    [before], [mid] and [after]. *)
Definition sole_block (content : str) (before mid after : list str) : Prop :=
  split nl content = before ++ [START_MARKER] ++ mid ++ [END_MARKER] ++ after /\
  Forall (fun line => marker_free line = true) (before ++ mid ++ after).

(** ** The encoder *)

Module Codec.

(** UTF-8 of one code point; surrogates (and numbers that are no code point)
    have none, [str.encode] raises [UnicodeEncodeError] on them. *)
Definition utf8_char (c : char) : option bytes :=
  if c <? 0x80 then Some [c]
  else if c <? 0x800 then Some [0xC0 + c / 64; 0x80 + c mod 64]
  else if c <? 0x10000 then
    if (0xD800 <=? c) && (c <=? 0xDFFF) then None
    else Some [0xE0 + c / 4096; 0x80 + (c / 64) mod 64; 0x80 + c mod 64]
  else if c <? 0x110000 then
    Some [0xF0 + c / 262144; 0x80 + (c / 4096) mod 64;
          0x80 + (c / 64) mod 64; 0x80 + c mod 64]
  else None.

(** [s.encode()] *)
Fixpoint encode (s : str) : option bytes :=
  match s with
  | [] => Some []
  | c :: s' =>
      match utf8_char c, encode s' with
      | Some b, Some bs => Some (b ++ bs)
      | _, _ => None
      end
  end.

(** [b.decode()] where every byte of [b] is ASCII, as base64 text is: each
    byte is the code point of the same number. *)
Definition decode (b : bytes) : str := b.

(** A continuation byte of UTF-8. *)
Definition continuation (b : byte) : bool := (0x80 <=? b) && (b <=? 0xBF).

(** [b.decode()] in full: the text of which [b] is the UTF-8 encoding, and
    none ([UnicodeDecodeError]) for bytes that are no UTF-8: a stray or
    missing continuation byte, an overlong form, a surrogate, a code point
    beyond U+10FFFF. *)
Fixpoint utf8_decode (b : bytes) : option str :=
  match b with
  | [] => Some []
  | b0 :: rest =>
      if b0 <? 0x80 then option_map (cons b0) (utf8_decode rest)
      else if b0 <? 0xC2 then None
      else if b0 <? 0xE0 then
        match rest with
        | b1 :: rest' =>
            if continuation b1
            then option_map (cons ((b0 - 0xC0) * 64 + (b1 - 0x80)))
                            (utf8_decode rest')
            else None
        | _ => None
        end
      else if b0 <? 0xF0 then
        match rest with
        | b1 :: b2 :: rest' =>
            let c := (b0 - 0xE0) * 4096 + (b1 - 0x80) * 64 + (b2 - 0x80) in
            if continuation b1 && continuation b2 && (0x800 <=? c)
               && negb ((0xD800 <=? c) && (c <=? 0xDFFF))
            then option_map (cons c) (utf8_decode rest')
            else None
        | _ => None
        end
      else if b0 <? 0xF5 then
        match rest with
        | b1 :: b2 :: b3 :: rest' =>
            let c := (b0 - 0xF0) * 262144 + (b1 - 0x80) * 4096
                     + (b2 - 0x80) * 64 + (b3 - 0x80) in
            if continuation b1 && continuation b2 && continuation b3
               && (0x10000 <=? c) && (c <=? 0x10FFFF)
            then option_map (cons c) (utf8_decode rest')
            else None
        | _ => None
        end
      else None
  end.

(** The base64 alphabet of RFC 4648, and its padding character. *)
Definition alphabet : bytes :=
  lit "ABCDEFGHIJKLMNOPQRSTUVWXYZabcdefghijklmnopqrstuvwxyz0123456789+/".

Definition pad : byte := 61.

(** The character of the sextet [i]. *)
Definition b64_char (i : N) : byte := nth (N.to_nat i) alphabet pad.

(** [base64.b64encode(b)]: three octets give four characters, and the last
    one or two octets are padded. *)
Fixpoint b64encode (b : bytes) : bytes :=
  match b with
  | [] => []
  | [x] => [b64_char (x / 4); b64_char (x mod 4 * 16); pad; pad]
  | [x; y] =>
      [b64_char (x / 4); b64_char (x mod 4 * 16 + y / 16);
       b64_char (y mod 16 * 4); pad]
  | x :: y :: z :: rest =>
      [b64_char (x / 4); b64_char (x mod 4 * 16 + y / 16);
       b64_char (y mod 16 * 4 + z / 64); b64_char (z mod 64)]
      ++ b64encode rest
  end.

(** The sextet of a character of the alphabet. *)
Fixpoint index_from (i : N) (table : bytes) (c : byte) : option N :=
  match table with
  | [] => None
  | t :: table' => if t =? c then Some i else index_from (N.succ i) table' c
  end.

Definition b64_index (c : byte) : option N := index_from 0 alphabet c.

(** Base64 decoding as RFC 4648 defines it (what
    [base64.b64decode(s, validate=True)] computes): the inverse against which
    the round trip of the encoder is stated.  Padding is accepted in the last
    group of four only. *)
Fixpoint b64decode (s : bytes) : option bytes :=
  match s with
  | [] => Some []
  | c1 :: c2 :: c3 :: c4 :: rest =>
      match b64_index c1, b64_index c2 with
      | Some i1, Some i2 =>
          if (c3 =? pad) && (c4 =? pad) then
            match rest with
            | [] => Some [i1 * 4 + i2 / 16]
            | _ :: _ => None
            end
          else
            match b64_index c3 with
            | Some i3 =>
                if c4 =? pad then
                  match rest with
                  | [] => Some [i1 * 4 + i2 / 16; i2 mod 16 * 16 + i3 / 4]
                  | _ :: _ => None
                  end
                else
                  match b64_index c4, b64decode rest with
                  | Some i4, Some tail =>
                      Some (i1 * 4 + i2 / 16 :: i2 mod 16 * 16 + i3 / 4
                            :: i3 mod 4 * 64 + i4 :: tail)
                  | _, _ => None
                  end
            | None => None
            end
      | _, _ => None
      end
  | _ => None
  end.

End Codec.

(** The uppercase mapping of ASCII: the letters [a]..[z] go to [A]..[Z], every
    other character to itself. *)
Definition ascii_upper (c : char) : char :=
  if (97 <=? c) && (c <=? 122) then c - 32 else c.

(** [s.upper()].  Python replaces each character by its full uppercase
    mapping in the Unicode character database (one to three characters); that
    table is no part of the repository and is the parameter [uppercase]. *)
Definition upper (uppercase : char -> str) (s : str) : str :=
  flat_map uppercase s.

(** The table for text whose cased characters are all ASCII. *)
Definition ascii_uppercase (c : char) : str := [ascii_upper c].

Definition dash : char := 45.
Definition underscore : char := 95.
Definition equals : char := 61.

(** [env_key = key.upper().replace("-", "_")] *)
Definition env_key (uppercase : char -> str) (key : str) : str :=
  replace dash underscore (upper uppercase key).

(** The line [f"{env_key}={encoded}"] of one entry, where
    [encoded = base64.b64encode(value.encode()).decode()]; none when the value
    has no UTF-8 encoding. *)
Definition encode_entry (uppercase : char -> str) (entry : str * str)
  : option str :=
  let '(key, value) := entry in
  match Codec.encode value with
  | Some raw =>
      Some (env_key uppercase key ++ [equals]
            ++ Codec.decode (Codec.b64encode raw))
  | None => None
  end.

(** [encode_prompts], from the mapping [prompts] that [yaml.safe_load]
    returned, as the list of its items in iteration order: the loop appends
    one line per item, and an exception (here [None]) ends it. *)
Definition encode_prompts (uppercase : char -> str)
    (prompts : list (str * str)) : option (list str) :=
  fold_left
    (fun lines entry =>
       match lines, encode_entry uppercase entry with
       | Some lines, Some line => Some (lines ++ [line])
       | _, _ => None
       end)
    prompts (Some []).

(** The text after the first occurrence of [sep]: the payload of an
    assignment line is [after_first equals line]. *)
Fixpoint after_first (sep : char) (s : str) : option str :=
  match s with
  | [] => None
  | c :: s' => if c =? sep then Some s' else after_first sep s'
  end.

(** The text before the first occurrence of [sep]: the key of an assignment
    line is [before_first equals line]. *)
Fixpoint before_first (sep : char) (s : str) : option str :=
  match s with
  | [] => None
  | c :: s' =>
      if c =? sep then Some []
      else option_map (cons c) (before_first sep s')
  end.

(** The key transform in the words of the specification: every ["-"] becomes
    ["_"], and all characters are upper-cased. *)
Definition upper_snake (uppercase : char -> str) (key : str) : str :=
  upper uppercase (replace dash underscore key).

(** Which sentinel the replacement loop takes a line for: its two tests
    [START_MARKER in line] and [END_MARKER in line], in the order of the
    loop. *)
Inductive sentinel : Type :=
| StartSentinel
| EndSentinel.

Definition classify (line : str) : option sentinel :=
  if str_in START_MARKER line then Some StartSentinel
  else if str_in END_MARKER line then Some EndSentinel
  else None.

(** White space as [str.isspace] has it. *)
Definition is_space (c : char) : bool :=
  ((9 <=? c) && (c <=? 13)) || ((28 <=? c) && (c <=? 32)) ||
  (c =? 133) || (c =? 160) || (c =? 5760) ||
  ((8192 <=? c) && (c <=? 8202)) || (c =? 8232) || (c =? 8233) ||
  (c =? 8239) || (c =? 8287) || (c =? 12288).

(** [s.lstrip()] and [s.strip()]: the trimmed line of the specification. *)
Fixpoint lstrip (s : str) : str :=
  match s with
  | [] => []
  | c :: s' => if is_space c then lstrip s' else s
  end.

Definition strip (s : str) : str := rev (lstrip (rev (lstrip s))).

(** The exact-line test of the specification: the whole trimmed line is one
    of the two sentinels. *)
Definition exact_sentinel (line : str) : Prop :=
  strip line = START_MARKER \/ strip line = END_MARKER.

(** [line] is the line that the encoder makes of [entry]. *)
Definition entry_line (uppercase : char -> str) (entry : str * str)
    (line : str) : Prop :=
  encode_entry uppercase entry = Some line.

(** A code point that has a UTF-8 encoding: a Unicode scalar value. *)
Definition scalar_value (c : char) : Prop :=
  c < 0xD800 \/ (0xDFFF < c /\ c < 0x110000).

(** ** The file system and the process *)

(** What a path can name: a regular file with its bytes, or a directory.
    Devices, pipes and sockets are outside the model. *)
Inductive node : Type :=
| RegularFile (data : bytes)
| Directory.

(** What the script can observe and change.  [files] says which file, by its
    number, a path text names for the operating system: several texts can
    name one file (relative and absolute paths, links).  [disk] holds the
    files by number; a text whose number is not on the disk names nothing (a
    dangling link).  [stdout] and [stderr] are the texts given to [print] on
    each stream.  The encoding of the locale is UTF-8, and the system is
    POSIX: a newline is written as it is.  Files that the process may not
    read or write are outside the model. *)
Record world : Type := World {
  files : gmap str nat;
  disk : gmap nat node;
  stdout : list str;
  stderr : list str
}.

(** The exceptions that end the script when nothing catches them;
    [LoadError] stands for whatever [yaml.safe_load] raises on the open file
    (bytes that are no text, text that is no YAML), or the loop on a document
    that is no mapping from strings to strings. *)
Inductive exception : Type :=
| FileNotFoundError
| IsADirectoryError
| UnicodeDecodeError
| UnicodeEncodeError
| LoadError.

(** How a call ends: it returns, [sys.exit(status)] ends the process, or an
    exception leaves it.  The world beside [Raised] is the one in which the
    exception is raised, before the interpreter prints its traceback. *)
Inductive outcome : Type :=
| Returned
| Exited (status : Z)
| Raised (e : exception).

(** [os.stat(path)], links followed: the file that [path] names, if any.
    [path.exists()] is [is_Some (stat w path)].  The errors of the operating
    system other than the absence of the file (permission denied, a name too
    long) are outside the model. *)
Definition stat (w : world) (path : str) : option (nat * node) :=
  match files w !! path with
  | Some i =>
      match disk w !! i with
      | Some n => Some (i, n)
      | None => None
      end
  | None => None
  end.

Definition slash : char := 47.

(** [text.lstrip("/")] *)
Fixpoint lstrip_slash (s : str) : str :=
  match s with
  | [] => []
  | c :: s' => if c =? slash then lstrip_slash s' else s
  end.

(** [str(Path(text))] on POSIX: the root is ["//"] for exactly two leading
    slashes and ["/"] for any other number of them, the empty and the ["."]
    components are dropped, and a path without root and components is
    ["."]. *)
Definition path_str (text : str) : str :=
  let stripped := lstrip_slash text in
  let leading := (length text - length stripped)%nat in
  let root :=
    match leading with
    | O => []
    | 2%nat => [slash; slash]
    | _ => [slash]
    end in
  let parts :=
    List.filter (fun part => negb (bool_decide (part = []))
                             && negb (bool_decide (part = lit ".")))
                (split slash stripped) in
  match root, parts with
  | [], [] => lit "."
  | _, _ => root ++ join [slash] parts
  end.

(** The translation of newlines of a file read in text mode: ["\r\n"] and
    ["\r"] become ["\n"]. *)
Fixpoint universal_newlines (s : str) : str :=
  match s with
  | [] => []
  | c :: rest =>
      if c =? 13 then
        nl :: match rest with
              | d :: rest' =>
                  if d =? nl then universal_newlines rest'
                  else universal_newlines rest
              | [] => []
              end
      else c :: universal_newlines rest
  end.

(** What [f.read()] returns for a file with [data] opened by [open(path)]:
    the UTF-8 text of the bytes with its newlines translated, and none when
    the bytes are not UTF-8 ([UnicodeDecodeError]). *)
Definition read_text (data : bytes) : option str :=
  option_map universal_newlines (Codec.utf8_decode data).

(** The world after the file [i] has got the bytes [data]. *)
Definition write_file (i : nat) (data : bytes) (w : world) : world :=
  {| files := files w;
     disk := <[i := RegularFile data]> (disk w);
     stdout := stdout w;
     stderr := stderr w |}.

(** The check mark of the confirmation message (U+2705). *)
Definition check_mark : char := 9989.

(** [update_env_file(env_file, prompt_lines)], with [env_file] for the text
    of the path.  Without a file there, the error message and [sys.exit(1)].
    Otherwise the file is opened and read; [open(env_file, "w")] empties it;
    [f.write] encodes the new content and raises [UnicodeEncodeError] when it
    has a surrogate, the file staying empty; the confirmation is printed on
    the standard output, which raises the same when the path has a
    surrogate.  The error stream replaces what it cannot encode and never
    raises. *)
Definition update_env_file (env_file : str) (prompt_lines : list str)
    (w : world) : outcome * world :=
  match stat w env_file with
  | None =>
      (Exited 1,
       {| files := files w;
          disk := disk w;
          stdout := stdout w;
          stderr := stderr w ++ [lit "Error: " ++ env_file ++ lit " not found"] |})
  | Some (_, Directory) => (Raised IsADirectoryError, w)
  | Some (i, RegularFile data) =>
      match read_text data with
      | None => (Raised UnicodeDecodeError, w)
      | Some content =>
          match Codec.encode (new_content content prompt_lines) with
          | None => (Raised UnicodeEncodeError, write_file i [] w)
          | Some data' =>
              let message :=
                check_mark :: lit " Prompts updated in " ++ env_file in
              match Codec.encode message with
              | None => (Raised UnicodeEncodeError, write_file i data' w)
              | Some _ =>
                  (Returned,
                   {| files := files w;
                      disk := <[i := RegularFile data']> (disk w);
                      stdout := stdout w ++ [message];
                      stderr := stderr w |})
              end
          end
      end
  end.

(** ** The command *)

(** [encode_prompts(prompts_file)] as the source has it, from the path: the
    file is opened and loaded, and the loop runs over the items.  The YAML
    parser is no part of the repository: [safe_load data] is the list of the
    items of the mapping from strings to strings that [yaml.safe_load] makes
    of an open file with the bytes [data], and none when loading it or
    iterating over it raises. *)
Definition encode_prompts_file (uppercase : char -> str)
    (safe_load : bytes -> option (list (str * str)))
    (prompts_file : str) (w : world) : exception + list str :=
  match stat w prompts_file with
  | None => inl FileNotFoundError
  | Some (_, Directory) => inl IsADirectoryError
  | Some (_, RegularFile data) =>
      match safe_load data with
      | None => inl LoadError
      | Some prompts =>
          match encode_prompts uppercase prompts with
          | None => inl UnicodeEncodeError
          | Some lines => inr lines
          end
      end
  end.

(** The target of [main]: [Path(sys.argv[1])] when there is an argument,
    [Path(".env.dev")] otherwise, as the text of the path. *)
Definition env_file_of (argv : list str) : str :=
  match argv with
  | _ :: arg :: _ => path_str arg
  | _ => path_str (lit ".env.dev")
  end.

(** [main()], with [argv] for [sys.argv]. *)
Definition main (uppercase : char -> str)
    (safe_load : bytes -> option (list (str * str)))
    (argv : list str) (w : world) : outcome * world :=
  let env_file := env_file_of argv in
  let prompts_file := path_str (lit "prompts.yaml") in
  match stat w prompts_file with
  | None =>
      (Exited 1,
       {| files := files w;
          disk := disk w;
          stdout := stdout w;
          stderr := stderr w
                    ++ [lit "Error: " ++ prompts_file ++ lit " not found"] |})
  | Some _ =>
      match encode_prompts_file uppercase safe_load prompts_file w with
      | inr prompt_lines => update_env_file env_file prompt_lines w
      | inl e => (Raised e, w)
      end
  end.

(** The number of the [lines] in which [needle] occurs. *)
Definition count_in (needle : str) (lines : list str) : nat :=
  length (List.filter (str_in needle) lines).

(** ** The poll generator of [scripts/generate-test-polls.py] *)

Module Polls.

(** The exceptions that [generate_poll_request] can raise. *)
Inductive exn : Type :=
| IndexError
| KeyError
| ValueError
| TypeError.

(** A value, or the exception raised instead. *)
Inductive result (A : Type) : Type :=
| Ok (a : A)
| Raise (e : exn).

Arguments Ok {A} a.
Arguments Raise {A} e.

(** The random source: an endless sequence of draws and the position of the
    next one.  Every statement below is about all sources. *)
Record rng : Type := Rng {
  draws : nat -> nat;
  position : nat
}.

Definition next (r : rng) : nat * rng :=
  (draws r (position r), Rng (draws r) (S (position r))).

(** [random.choice(seq)]: an element of [seq], any of them for a suitable
    draw; [IndexError] on an empty sequence. *)
Definition choice {A : Type} (seq : list A) (r : rng) : result A * rng :=
  let '(d, r') := next r in
  match seq !! (d mod length seq)%nat with
  | Some x => (Ok x, r')
  | None => (Raise IndexError, r')
  end.

(** [k] elements at different positions of [pool], in the order drawn. *)
Fixpoint pick {A : Type} (k : nat) (pool : list A) (r : rng) : list A * rng :=
  match k with
  | O => ([], r)
  | S k' =>
      let '(d, r') := next r in
      let i := (d mod length pool)%nat in
      match pool !! i with
      | Some x =>
          let '(rest, r'') := pick k' (delete i pool) r' in
          (x :: rest, r'')
      | None => ([], r')
      end
  end.

(** [random.sample(population, k)]: [k] elements at different positions;
    [ValueError] when [k] is negative or larger than the population. *)
Definition sample {A : Type} (population : list A) (k : Z) (r : rng)
  : result (list A) * rng :=
  if ((k <? 0) || (Z.of_nat (length population) <? k))%Z
  then (Raise ValueError, r)
  else let '(selected, r') := pick (Z.to_nat k) population r in (Ok selected, r').

(** What a key of the data holds: a list of user objects, of which the
    function reads the ["username"] only, or a list of texts. *)
Inductive entry : Type :=
| Users (usernames : list str)
| Texts (texts : list str).

(** The data of [load_users], for a file of the shape the function expects:
    the key ["poll_templates"], when present, holds a list of texts, and
    every other key a list of user objects with a text as ["username"]. *)
Record users_data : Type := UsersData {
  by_category : gmap str (list str);
  poll_templates : option (list str)
}.

Definition POLL_TEMPLATES : str := lit "poll_templates".

(** [users_data.get(key)] *)
Definition get (data : users_data) (key : str) : option entry :=
  if bool_decide (key = POLL_TEMPLATES) then Texts <$> poll_templates data
  else Users <$> by_category data !! key.

(** [users_data[key]] *)
Definition item (data : users_data) (key : str) : result entry :=
  match get data key with
  | Some e => Ok e
  | None => Raise KeyError
  end.

(** [categories] of the source. *)
Definition CATEGORIES : list str :=
  [lit "language_creators"; lit "framework_authors"; lit "tool_creators";
   lit "oss_legends"].

(** [seq[i]] for a list. *)
Definition index {A : Type} (seq : list A) (i : nat) : result A :=
  match seq !! i with
  | Some x => Ok x
  | None => Raise IndexError
  end.

(** [[f"@{u['username']}" for u in selected_users]]: subscripting a text with
    ["username"] raises [TypeError]. *)
Definition usernames_of (selected_users : entry) : result (list str) :=
  match selected_users with
  | Users names => Ok (List.map (fun name => lit "@" ++ name) names)
  | Texts [] => Ok []
  | Texts (_ :: _) => Raise TypeError
  end.

Definition entry_items (e : entry) : list str :=
  match e with Users l => l | Texts l => l end.

Definition entry_with (e : entry) (l : list str) : entry :=
  match e with Users _ => Users l | Texts _ => Texts l end.

(** The keyword arguments that the function passes to [str.format], from the
    category and the user names: [user3] only with more than two names. *)
Definition keyword_arguments (selected_category : str) (usernames : list str)
  : list (str * str) :=
  match usernames with
  | user1 :: user2 :: more =>
      [(lit "category", replace underscore 32 selected_category);
       (lit "user1", user1); (lit "user2", user2)]
      ++ match more with
         | user3 :: _ => [(lit "user3", user3)]
         | [] => []
         end
  | _ => []
  end.

(** [generate_poll_request(users_data, category, num_options)].  The method
    [str.format] is no part of the repository: [format template kwargs] is
    what [template.format] returns or raises for the keyword arguments
    [kwargs]. *)
Definition generate_poll_request
    (format : str -> list (str * str) -> result str)
    (data : users_data) (category : option str) (num_options : Z) (r : rng)
  : result str :=
  (* Select random category if not specified *)
  let given :=
    match category with
    | Some (c :: cs) => bool_decide (is_Some (get data (c :: cs)))
    | _ => false
    end in
  let '(selected_category, r) :=
    if given then (Ok (default [] category), r) else choice CATEGORIES r in
  match selected_category with
  | Raise e => Raise e
  | Ok selected_category =>
  (* Get users from that category *)
  match item data selected_category with
  | Raise e => Raise e
  | Ok users =>
      let num_options :=
        if (Z.of_nat (length (entry_items users)) <? num_options)%Z
        then Z.of_nat (length (entry_items users)) else num_options in
      (* Select random users *)
      match sample (entry_items users) num_options r with
      | (Raise e, _) => Raise e
      | (Ok selected, r) =>
          match usernames_of (entry_with users selected) with
          | Raise e => Raise e
          | Ok usernames =>
              match item data POLL_TEMPLATES with
              | Raise e => Raise e
              | Ok templates =>
                  let templates := entry_items templates in
                  let candidates :=
                    if (num_options =? 2)%Z
                    then List.filter
                           (fun t => negb (str_in (lit "{user3}") t)) templates
                    else templates in
                  match choice candidates r with
                  | (Raise e, _) => Raise e
                  | (Ok template, _) =>
                      let category_name :=
                        replace underscore 32 selected_category in
                      let formatted :=
                        match index usernames 0, index usernames 1 with
                        | Raise e, _ => Raise e
                        | Ok _, Raise e => Raise e
                        | Ok user1, Ok user2 =>
                            if (num_options =? 2)%Z then
                              format template
                                [(lit "category", category_name);
                                 (lit "user1", user1); (lit "user2", user2)]
                            else
                              match
                                (if (2 <? length usernames)%nat
                                 then index usernames 2
                                 else index usernames 0)
                              with
                              | Raise e => Raise e
                              | Ok user3 =>
                                  format template
                                    [(lit "category", category_name);
                                     (lit "user1", user1); (lit "user2", user2);
                                     (lit "user3", user3)]
                              end
                        end in
                      match formatted with
                      | Raise e => Raise e
                      | Ok poll_request => Ok (strip poll_request)
                      end
                  end
              end
          end
      end
  end
  end.

End Polls.

(** ** Sample inputs *)

Definition sample_prompts : list (str * str) :=
  [(lit "system-prompt", lit "bar")].

Definition sample_lines : list str := [lit "SYSTEM_PROMPT=YmFy"].

(** A file with one managed block, text around it and a final newline. *)
Definition sample_env : str :=
  join [nl] [lit "A=1"; START_MARKER; lit "OLD=x"; END_MARKER; lit "B=2"; []].

(** A file without sentinels. *)
Definition sample_plain : str := lit "A=1" ++ [nl].

(** A file with a start sentinel and no end sentinel. *)
Definition sample_stray_start : str :=
  join [nl] [lit "A=1"; START_MARKER; lit "OLD=x"; []].

(** A comment that quotes the end sentinel, and a file with one managed block
    followed by that comment. *)
Definition sample_comment : str := lit "# after " ++ END_MARKER.

Definition sample_quoted : str :=
  join [nl] [START_MARKER; lit "OLD=x"; END_MARKER; sample_comment].

(** A comment that quotes the start sentinel, and a file with one managed
    block followed by that comment and a final newline. *)
Definition sample_start_comment : str := lit "# see " ++ START_MARKER.

Definition sample_quoted_start : str :=
  join [nl] [START_MARKER; lit "OLD=x"; END_MARKER; sample_start_comment; []].

(** A file whose end sentinel comes before its start sentinel. *)
Definition sample_reversed : str := join [nl] [END_MARKER; START_MARKER; []].

Definition sample_path : str := lit ".env.dev".

(** [template.format] with keyword arguments, for templates whose fields are
    plain names: without doubled braces, conversions, format specifications,
    attributes or indices.  [field] is the name being read, backwards. *)
Fixpoint format_fields (template : str) (field : option str)
    (kwargs : list (str * str)) : Polls.result str :=
  match template, field with
  | [], None => Polls.Ok []
  | [], Some _ => Polls.Raise Polls.ValueError
  | c :: rest, None =>
      if c =? 123 then format_fields rest (Some []) kwargs
      else if c =? 125 then Polls.Raise Polls.ValueError
      else match format_fields rest None kwargs with
           | Polls.Ok text => Polls.Ok (c :: text)
           | Polls.Raise e => Polls.Raise e
           end
  | c :: rest, Some name =>
      if c =? 125 then
        match name with
        | [] => Polls.Raise Polls.IndexError
        | _ :: _ =>
            match List.find (fun kw => bool_decide (fst kw = rev name)) kwargs with
            | None => Polls.Raise Polls.KeyError
            | Some kw =>
                match format_fields rest None kwargs with
                | Polls.Ok text => Polls.Ok (snd kw ++ text)
                | Polls.Raise e => Polls.Raise e
                end
            end
        end
      else format_fields rest (Some (c :: name)) kwargs
  end.

Definition sample_format (template : str) (kwargs : list (str * str))
  : Polls.result str :=
  format_fields template None kwargs.

(** Data with one category of three users and two templates. *)
Definition sample_data : Polls.users_data :=
  {| Polls.by_category :=
       {[ lit "oss_legends" := [lit "torvalds"; lit "gvanrossum"; lit "antirez"] ]};
     Polls.poll_templates :=
       Some [lit " Who of {category}: {user1} or {user2}? ";
             lit "{user1}, {user2} or {user3}?"] |}.

(** A random source whose every draw is [n]. *)
Definition constant_rng (n : nat) : Polls.rng :=
  {| Polls.draws := fun _ => n; Polls.position := 0 |}.

(** The world in which [sample_path] names the file 1, a regular file with
    the UTF-8 bytes of [content], and nothing has been printed. *)
Definition sample_world (content : str) : world :=
  {| files := {[ sample_path := 1%nat ]};
     disk := {[ 1%nat := RegularFile (default [] (Codec.encode content)) ]};
     stdout := [];
     stderr := [] |}.

(** A working directory with the target (file 1) and the prompts file
    (file 2), and a loader that yields [sample_prompts]. *)
Definition sample_project (content : str) : world :=
  {| files := <[ lit "prompts.yaml" := 2%nat ]> {[ sample_path := 1%nat ]};
     disk := <[ 2%nat := RegularFile [] ]>
               {[ 1%nat := RegularFile (default [] (Codec.encode content)) ]};
     stdout := [];
     stderr := [] |}.

Definition sample_load (data : bytes) : option (list (str * str)) :=
  Some sample_prompts.

(** * Properties *)

(** ** Substrings, lines and joins *)

Section TextFacts.

Implicit Types (s t needle hay : str) (items : list str) (sep c : char).

Lemma startswith_true prefix s :
  startswith prefix s = true <-> exists t, s = prefix ++ t.
Proof.
  revert s. induction prefix as [|p prefix IH]; intros s; simpl.
  - split; [intros _; exists s; reflexivity | reflexivity].
  - destruct s as [|c s]; simpl.
    + split; [discriminate | intros [t Ht]; discriminate].
    + rewrite andb_true_iff, N.eqb_eq, IH. split.
      * intros [-> [t ->]]. exists t. reflexivity.
      * intros [t Ht]. injection Ht as -> ->. split; [reflexivity | exists t; reflexivity].
Qed.

(** [needle in hay] holds exactly when [hay] has [needle] as a contiguous
    part. *)
Lemma str_in_true needle hay :
  str_in needle hay = true <-> exists a b, hay = a ++ needle ++ b.
Proof.
  induction hay as [|c hay IH]; simpl.
  - rewrite orb_false_r, startswith_true. split.
    + intros [t Ht]. exists [], t. exact Ht.
    + intros [a [b Hab]]. destruct a; [|discriminate].
      exists b. exact Hab.
  - rewrite orb_true_iff, startswith_true, IH. split.
    + intros [[t Ht] | [a [b Hab]]].
      * exists [], t. exact Ht.
      * exists (c :: a), b. rewrite Hab. reflexivity.
    + intros [a [b Hab]]. destruct a as [|c' a]; simpl in Hab.
      * left. exists b. exact Hab.
      * right. injection Hab as -> ->. exists a, b. reflexivity.
Qed.

Lemma str_in_refl needle : str_in needle needle = true.
Proof. apply str_in_true. exists [], []. rewrite app_nil_r. reflexivity. Qed.

(** A part of a part is a part. *)
Lemma str_in_app needle hay a b :
  str_in needle hay = true -> str_in needle (a ++ hay ++ b) = true.
Proof.
  rewrite !str_in_true. intros [x [y ->]].
  exists (a ++ x), (y ++ b). rewrite <- !app_assoc. reflexivity.
Qed.

Lemma str_in_false_app needle hay a b :
  str_in needle (a ++ hay ++ b) = false -> str_in needle hay = false.
Proof.
  intros H. destruct (str_in needle hay) eqn:E; [|reflexivity].
  rewrite (str_in_app _ _ a b E) in H. discriminate.
Qed.

(** Every character of [needle] occurs in a text that contains it. *)
Lemma str_in_elem needle hay c :
  str_in needle hay = true -> c ∈ needle -> c ∈ hay.
Proof.
  rewrite str_in_true. intros [a [b ->]] Hc.
  rewrite !elem_of_app. right. left. exact Hc.
Qed.

Lemma split_not_nil sep s : split sep s <> [].
Proof.
  destruct s as [|c s]; simpl; [discriminate|].
  destruct (c =? sep); [discriminate|].
  destruct (split sep s); discriminate.
Qed.

(** A text without the separator is its own single piece. *)
Lemma split_without sep s : sep ∉ s -> split sep s = [s].
Proof.
  induction s as [|c s IH]; intros H; simpl; [reflexivity|].
  rewrite not_elem_of_cons in H. destruct H as [Hc Hs].
  destruct (N.eqb_spec c sep) as [->|_]; [contradiction|].
  rewrite (IH Hs). reflexivity.
Qed.

(** Splitting at a separator: the pieces before it, then the pieces after. *)
Lemma split_app_sep sep a b :
  split sep (a ++ sep :: b) = split sep a ++ split sep b.
Proof.
  induction a as [|c a IH]; simpl.
  - rewrite N.eqb_refl. reflexivity.
  - destruct (c =? sep); [rewrite IH; reflexivity|].
    rewrite IH. pose proof (split_not_nil sep a) as Hne.
    destruct (split sep a); [contradiction | reflexivity].
Qed.

Lemma join_cons sep x items :
  items <> [] -> join [sep] (x :: items) = x ++ sep :: join [sep] items.
Proof. destruct items; [contradiction | reflexivity]. Qed.

Lemma join_app sep items1 items2 :
  items1 <> [] -> items2 <> [] ->
  join [sep] (items1 ++ items2) = join [sep] items1 ++ sep :: join [sep] items2.
Proof.
  intros H1 H2. induction items1 as [|x items1 IH]; [contradiction|].
  destruct items1 as [|y items1].
  - simpl app. rewrite join_cons by assumption. reflexivity.
  - change ((x :: y :: items1) ++ items2) with (x :: (y :: items1) ++ items2).
    rewrite join_cons by discriminate.
    rewrite IH by discriminate.
    rewrite (join_cons sep x (y :: items1)) by discriminate.
    rewrite <- app_assoc. reflexivity.
Qed.

(** Joining the pieces gives the text back. *)
Lemma join_split sep s : join [sep] (split sep s) = s.
Proof.
  induction s as [|c s IH]; simpl; [reflexivity|].
  destruct (c =? sep) eqn:E.
  - apply N.eqb_eq in E. subst c.
    rewrite join_cons by apply split_not_nil. rewrite IH. reflexivity.
  - pose proof (split_not_nil sep s) as Hne.
    destruct (split sep s) as [|piece pieces]; [contradiction|].
    destruct pieces as [|q pieces]; simpl in *; rewrite <- IH; reflexivity.
Qed.

(** The pieces of a join are the pieces of its items, in order. *)
Lemma split_join sep items :
  items <> [] ->
  split sep (join [sep] items) = concat (List.map (split sep) items).
Proof.
  induction items as [|x items IH]; [contradiction|]. intros _.
  destruct items as [|y items].
  - simpl. rewrite app_nil_r. reflexivity.
  - rewrite join_cons by discriminate. rewrite split_app_sep.
    rewrite IH by discriminate. reflexivity.
Qed.

(** No piece contains the separator. *)
Lemma split_pieces_without sep s piece :
  piece ∈ split sep s -> sep ∉ piece.
Proof.
  revert piece. induction s as [|c s IH]; simpl; intros piece H.
  - apply list_elem_of_singleton in H. subst. apply not_elem_of_nil.
  - destruct (N.eqb_spec c sep) as [->|Hne].
    + apply elem_of_cons in H. destruct H as [->|H]; [apply not_elem_of_nil | auto].
    + pose proof (split_not_nil sep s) as Hnil.
      destruct (split sep s) as [|q pieces]; [contradiction|].
      apply elem_of_cons in H. destruct H as [->|H].
      * rewrite not_elem_of_cons. split; [congruence|].
        apply IH. left.
      * apply IH. right. exact H.
Qed.

(** Every item is a part of the join. *)
Lemma join_item_part sep items x :
  x ∈ items -> exists a b, join [sep] items = a ++ x ++ b.
Proof.
  induction items as [|y items IH]; intros H; [inversion H|].
  destruct items as [|z items].
  - apply list_elem_of_singleton in H. subst. exists [], [].
    simpl. rewrite app_nil_r. reflexivity.
  - rewrite join_cons by discriminate.
    apply elem_of_cons in H. destruct H as [->|H].
    + exists [], (sep :: join [sep] (z :: items)). reflexivity.
    + destruct (IH H) as [a [b Hab]]. exists (y ++ sep :: a), b.
      rewrite Hab, <- app_assoc. reflexivity.
Qed.

(** Every line of a text is a part of it. *)
Lemma split_piece_part sep s piece :
  piece ∈ split sep s -> exists a b, s = a ++ piece ++ b.
Proof.
  intros H. destruct (join_item_part sep _ _ H) as [a [b Hab]].
  rewrite join_split in Hab. exists a, b. exact Hab.
Qed.

(** Text without separator in front of [t] extends the first line of [t]. *)
Lemma split_app_without sep needle t :
  sep ∉ needle ->
  split sep (needle ++ t) =
  (needle ++ hd [] (split sep t)) :: tl (split sep t).
Proof.
  induction needle as [|n needle IH]; intros H; simpl.
  - pose proof (split_not_nil sep t) as Hne.
    destruct (split sep t); [contradiction | reflexivity].
  - rewrite not_elem_of_cons in H. destruct H as [Hn H].
    destruct (N.eqb_spec n sep) as [->|_]; [contradiction|].
    rewrite (IH H). reflexivity.
Qed.

(** A text that contains [needle], where [needle] has no separator, has a
    line that contains it. *)
Lemma str_in_split sep needle s :
  sep ∉ needle -> str_in needle s = true ->
  exists piece, piece ∈ split sep s /\ str_in needle piece = true.
Proof.
  intros Hsep H. apply str_in_true in H. destruct H as [a [b ->]].
  induction a as [|c a IH].
  - simpl app. rewrite (split_app_without _ _ _ Hsep).
    eexists. split; [left|].
    apply str_in_true. exists [], (hd [] (split sep b)). reflexivity.
  - destruct IH as [piece [Hin Hp]]. simpl.
    destruct (c =? sep).
    + exists piece. split; [right; exact Hin | exact Hp].
    + destruct (split sep (a ++ needle ++ b)) as [|q pieces]; [inversion Hin|].
      apply elem_of_cons in Hin. destruct Hin as [->|Hin].
      * exists (c :: q). split; [left|].
        apply (str_in_app _ _ [c] []) in Hp.
        rewrite app_nil_r in Hp. exact Hp.
      * exists piece. split; [right; exact Hin | exact Hp].
Qed.

End TextFacts.

(** ** The sentinels as texts *)

Lemma START_MARKER_one_line : nl ∉ START_MARKER.
Proof. apply (bool_decide_unpack _). vm_compute. exact I. Qed.

Lemma END_MARKER_one_line : nl ∉ END_MARKER.
Proof. apply (bool_decide_unpack _). vm_compute. exact I. Qed.

Lemma START_MARKER_dash : dash ∈ START_MARKER.
Proof. apply (bool_decide_unpack _). vm_compute. exact I. Qed.

Lemma END_MARKER_dash : dash ∈ END_MARKER.
Proof. apply (bool_decide_unpack _). vm_compute. exact I. Qed.

Lemma END_MARKER_no_start : str_in START_MARKER END_MARKER = false.
Proof. vm_compute. reflexivity. Qed.

(** A text without ["-"] contains neither sentinel. *)
Lemma dash_free_marker_free line : dash ∉ line -> marker_free line = true.
Proof.
  intros H. unfold marker_free.
  destruct (str_in START_MARKER line) eqn:Es.
  { exfalso. apply H. exact (str_in_elem _ _ _ Es START_MARKER_dash). }
  destruct (str_in END_MARKER line) eqn:Ee.
  { exfalso. apply H. exact (str_in_elem _ _ _ Ee END_MARKER_dash). }
  reflexivity.
Qed.

Lemma marker_free_true line :
  marker_free line = true <->
  str_in START_MARKER line = false /\ str_in END_MARKER line = false.
Proof. unfold marker_free. rewrite andb_true_iff, !negb_true_iff. reflexivity. Qed.

(** A part of a text without sentinels has none. *)
Lemma marker_free_part a line b :
  marker_free (a ++ line ++ b) = true -> marker_free line = true.
Proof.
  rewrite !marker_free_true. intros [Hs He].
  split; eapply str_in_false_app; eassumption.
Qed.

Lemma marker_free_pieces s :
  marker_free s = true ->
  Forall (fun piece => marker_free piece = true) (split nl s).
Proof.
  intros H. apply Forall_forall. intros piece Hin.
  destruct (split_piece_part _ _ _ Hin) as [a [b Hab]].
  rewrite Hab in H. exact (marker_free_part _ _ _ H).
Qed.

(** ** The replacement loop *)

Section Loop.

Variable section : str.

Implicit Types (line : str) (lines acc : list str) (skip : bool).

Lemma loop_body_start acc skip line :
  str_in START_MARKER line = true ->
  loop_body section (acc, skip) line = (acc ++ [section], true).
Proof. intros H. unfold loop_body. rewrite H. reflexivity. Qed.

Lemma loop_body_end acc skip line :
  str_in START_MARKER line = false -> str_in END_MARKER line = true ->
  loop_body section (acc, skip) line = (acc, false).
Proof. intros Hs He. unfold loop_body. rewrite Hs, He. reflexivity. Qed.

Lemma loop_body_other acc skip line :
  marker_free line = true ->
  loop_body section (acc, skip) line =
  (if skip then acc else acc ++ [line], skip).
Proof.
  intros H. apply marker_free_true in H. destruct H as [Hs He].
  unfold loop_body. rewrite Hs, He. destruct skip; reflexivity.
Qed.

(** Outside a block, lines without sentinels are copied. *)
Lemma loop_keep lines acc :
  Forall (fun line => marker_free line = true) lines ->
  fold_left (loop_body section) lines (acc, false) = (acc ++ lines, false).
Proof.
  intros H. revert acc. induction H as [|line lines Hl _ IH]; intros acc; cbn [fold_left].
  - rewrite app_nil_r. reflexivity.
  - rewrite (loop_body_other _ _ _ Hl), IH, <- app_assoc. reflexivity.
Qed.

(** Inside a block, lines without sentinels are dropped. *)
Lemma loop_drop lines acc :
  Forall (fun line => marker_free line = true) lines ->
  fold_left (loop_body section) lines (acc, true) = (acc, true).
Proof.
  intros H. induction H as [|line lines Hl _ IH]; cbn [fold_left]; [reflexivity|].
  rewrite (loop_body_other _ _ _ Hl). exact IH.
Qed.

(** A whole block, from its start line to its end line, leaves the new
    section and nothing else. *)
Lemma loop_block s mid e acc skip :
  str_in START_MARKER s = true ->
  Forall (fun line => marker_free line = true) mid ->
  str_in START_MARKER e = false -> str_in END_MARKER e = true ->
  fold_left (loop_body section) (s :: mid ++ [e]) (acc, skip) =
  (acc ++ [section], false).
Proof.
  intros Hs Hmid He1 He2. cbn [fold_left].
  rewrite (loop_body_start _ _ _ Hs), fold_left_app, (loop_drop _ _ Hmid).
  cbn [fold_left]. apply loop_body_end; assumption.
Qed.

(** The accumulator only grows: what the loop has appended stays in front. *)
Lemma loop_prefix lines acc skip :
  fst (fold_left (loop_body section) lines (acc, skip)) =
  acc ++ fst (fold_left (loop_body section) lines ([], skip)).
Proof.
  revert acc skip. induction lines as [|line lines IH]; intros acc skip; cbn [fold_left].
  - rewrite app_nil_r. reflexivity.
  - unfold loop_body at 2 4.
    destruct (str_in START_MARKER line); [|destruct (str_in END_MARKER line);
      [|destruct skip; simpl]].
    + rewrite IH, (IH [section]), <- app_assoc. reflexivity.
    + apply IH.
    + apply IH.
    + rewrite IH, (IH [line]), <- app_assoc. reflexivity.
Qed.

(** Each line the loop leaves is the new section, or a line of the input in
    which no sentinel occurs. *)
Lemma loop_output lines acc skip item :
  item ∈ fst (fold_left (loop_body section) lines (acc, skip)) ->
  item ∈ acc \/ item = section \/ (item ∈ lines /\ marker_free item = true).
Proof.
  revert acc skip. induction lines as [|line lines IH]; intros acc skip; cbn [fold_left].
  - intros H. left. exact H.
  - unfold loop_body at 2.
    destruct (str_in START_MARKER line) eqn:Es; [|destruct (str_in END_MARKER line) eqn:Ee;
      [|destruct skip; simpl]]; intros H; apply IH in H.
    + destruct H as [H|[H|[H1 H2]]].
      * apply elem_of_app in H. destruct H as [H|H]; [left; exact H|].
        apply list_elem_of_singleton in H. right. left. exact H.
      * right. left. exact H.
      * right. right. split; [right; exact H1 | exact H2].
    + destruct H as [H|[H|[H1 H2]]]; [left; exact H | right; left; exact H |].
      right. right. split; [right; exact H1 | exact H2].
    + destruct H as [H|[H|[H1 H2]]]; [left; exact H | right; left; exact H |].
      right. right. split; [right; exact H1 | exact H2].
    + destruct H as [H|[H|[H1 H2]]].
      * apply elem_of_app in H. destruct H as [H|H]; [left; exact H|].
        apply list_elem_of_singleton in H. subst item.
        right. right. split; [left|]. apply marker_free_true. split; assumption.
      * right. left. exact H.
      * right. right. split; [right; exact H1 | exact H2].
Qed.

(** A line with the start sentinel puts the new section into the output. *)
Lemma loop_emits lines acc skip line :
  line ∈ lines -> str_in START_MARKER line = true ->
  section ∈ fst (fold_left (loop_body section) lines (acc, skip)).
Proof.
  intros Hin Hs. revert acc skip.
  induction Hin as [line lines|line other lines _ IH]; intros acc skip; cbn [fold_left].
  - rewrite (loop_body_start _ _ _ Hs), loop_prefix.
    rewrite !elem_of_app. left. right. apply list_elem_of_singleton. reflexivity.
  - destruct (loop_body section (acc, skip) other) as [acc' skip']. apply IH, Hs.
Qed.

End Loop.

(** ** Fixed points of the patch *)

Lemma new_section_lines prompt_lines :
  split nl (new_section prompt_lines) =
  START_MARKER :: concat (List.map (split nl) prompt_lines) ++ [END_MARKER].
Proof.
  unfold new_section. rewrite split_join by discriminate.
  cbn [List.map concat].
  rewrite (split_without _ _ START_MARKER_one_line).
  rewrite List.map_app, concat_app. cbn [List.map concat].
  rewrite (split_without _ _ END_MARKER_one_line), app_nil_r. reflexivity.
Qed.

Lemma new_section_has_start prompt_lines :
  str_in START_MARKER (new_section prompt_lines) = true.
Proof.
  apply str_in_true. apply (join_item_part nl). left.
Qed.

Lemma new_section_has_end prompt_lines :
  str_in END_MARKER (new_section prompt_lines) = true.
Proof.
  apply str_in_true. apply (join_item_part nl).
  right. apply elem_of_app. right. left.
Qed.

Lemma marker_free_all_pieces prompt_lines :
  Forall (fun line => marker_free line = true) prompt_lines ->
  Forall (fun line => marker_free line = true)
         (concat (List.map (split nl) prompt_lines)).
Proof.
  induction 1 as [|line lines Hl _ IH]; cbn [List.map concat]; [constructor|].
  apply Forall_app. split; [apply marker_free_pieces, Hl | exact IH].
Qed.

(** Over the lines of settled items the loop rebuilds the items. *)
Lemma loop_settled prompt_lines items acc :
  Forall (fun line => marker_free line = true) prompt_lines ->
  Forall (settled (new_section prompt_lines)) items ->
  fold_left (loop_body (new_section prompt_lines))
            (concat (List.map (split nl) items)) (acc, false) =
  (acc ++ items, false).
Proof.
  intros HL H. revert acc.
  induction H as [|item items Hitem _ IH]; intros acc; cbn [List.map concat].
  - cbn [fold_left]. rewrite app_nil_r. reflexivity.
  - rewrite fold_left_app.
    destruct Hitem as [->|[Hfree Hnl]].
    + rewrite new_section_lines.
      rewrite (loop_block _ START_MARKER _ END_MARKER).
      * rewrite IH, <- app_assoc. reflexivity.
      * apply str_in_refl.
      * apply marker_free_all_pieces, HL.
      * exact END_MARKER_no_start.
      * apply str_in_refl.
    + rewrite (split_without _ _ Hnl). cbn [fold_left].
      rewrite (loop_body_other _ _ _ _ Hfree).
      rewrite IH, <- app_assoc. reflexivity.
Qed.

(** A text made of settled items, the new section among them, is left as it
    is by the patch. *)
Lemma new_content_fixed prompt_lines items :
  Forall (fun line => marker_free line = true) prompt_lines ->
  Forall (settled (new_section prompt_lines)) items ->
  new_section prompt_lines ∈ items ->
  new_content (join [nl] items) prompt_lines = join [nl] items.
Proof.
  intros HL Hitems Hin. unfold new_content.
  destruct (join_item_part nl _ _ Hin) as [a [b Hab]].
  assert (Hs : str_in START_MARKER (join [nl] items) = true).
  { rewrite Hab. apply str_in_app, new_section_has_start. }
  assert (He : str_in END_MARKER (join [nl] items) = true).
  { rewrite Hab. apply str_in_app, new_section_has_end. }
  rewrite Hs, He. cbn [andb].
  assert (Hne : items <> []) by (intros ->; inversion Hin).
  rewrite (split_join _ _ Hne). unfold replace_loop.
  rewrite (loop_settled _ _ _ HL Hitems). reflexivity.
Qed.

(** What the replacement branch leaves is made of settled items. *)
Lemma replace_loop_settled section content :
  Forall (settled section) (fst (replace_loop section (split nl content))).
Proof.
  apply Forall_forall. intros item H. apply loop_output in H.
  destruct H as [H|[H|[Hin Hfree]]].
  - inversion H.
  - left. exact H.
  - right. split; [exact Hfree|]. exact (split_pieces_without _ _ _ Hin).
Qed.

Lemma replace_loop_emits section content :
  str_in START_MARKER content = true ->
  section ∈ fst (replace_loop section (split nl content)).
Proof.
  intros H.
  destruct (str_in_split nl _ _ START_MARKER_one_line H) as [line [Hin Hs]].
  exact (loop_emits _ _ _ _ _ Hin Hs).
Qed.

(** Idempotence wherever the replacement branch is taken, for new lines in
    which no sentinel occurs. *)
Lemma new_content_idempotent content prompt_lines :
  Forall (fun line => marker_free line = true) prompt_lines ->
  str_in START_MARKER content = true ->
  str_in END_MARKER content = true ->
  new_content (new_content content prompt_lines) prompt_lines =
  new_content content prompt_lines.
Proof.
  intros HL Hs He.
  assert (Hout : new_content content prompt_lines =
                 join [nl] (fst (replace_loop (new_section prompt_lines)
                                              (split nl content)))).
  { unfold new_content. rewrite Hs, He. reflexivity. }
  rewrite Hout. apply new_content_fixed.
  - exact HL.
  - apply replace_loop_settled.
  - apply replace_loop_emits, Hs.
Qed.

(** ** Base64 and UTF-8 *)

Section CodecFacts.

Import Codec.

(** Lists three elements at a time, as [b64encode] consumes them. *)
Lemma triples_ind (P : bytes -> Prop) :
  P [] -> (forall x, P [x]) -> (forall x y, P [x; y]) ->
  (forall x y z rest, P rest -> P (x :: y :: z :: rest)) ->
  forall b, P b.
Proof.
  intros H0 H1 H2 H3 b.
  assert (H : P b /\ (forall x, P (x :: b)) /\ (forall x y, P (x :: y :: b))).
  { induction b as [|z b [IHa [IHb IHc]]].
    - repeat split; auto.
    - repeat split; auto. }
  apply H.
Qed.

(** Every sextet has its own character, and none is the padding. *)
Lemma sextet_char i :
  i < 64 -> b64_index (b64_char i) = Some i /\ b64_char i <> pad.
Proof.
  intros Hi.
  assert (Hall : forallb
            (fun n => match b64_index (b64_char (N.of_nat n)) with
                      | Some j => (j =? N.of_nat n) && negb (b64_char (N.of_nat n) =? pad)
                      | None => false
                      end) (seq 0 64) = true) by (vm_compute; reflexivity).
  rewrite forallb_forall in Hall.
  specialize (Hall (N.to_nat i)). rewrite N2Nat.id in Hall.
  assert (Hin : In (N.to_nat i) (seq 0 64)) by (apply in_seq; lia).
  specialize (Hall Hin).
  destruct (b64_index (b64_char i)) as [j|]; [|discriminate].
  apply andb_true_iff in Hall. destruct Hall as [Hj Hp].
  apply N.eqb_eq in Hj. apply negb_true_iff, N.eqb_neq in Hp.
  subst j. split; [reflexivity | exact Hp].
Qed.

Lemma b64_index_char i : i < 64 -> b64_index (b64_char i) = Some i.
Proof. intros H. apply sextet_char, H. Qed.

Lemma b64_char_not_pad i : i < 64 -> (b64_char i =? pad) = false.
Proof. intros H. apply N.eqb_neq, sextet_char, H. Qed.

(** Base64 text is made of the alphabet and the padding. *)
Lemma b64_char_text i : b64_char i ∈ pad :: alphabet.
Proof.
  unfold b64_char.
  destruct (nth_in_or_default (N.to_nat i) alphabet pad) as [H|H].
  - right. apply list_elem_of_In. exact H.
  - rewrite H. left.
Qed.

Lemma b64encode_text b : Forall (fun c => c ∈ pad :: alphabet) (b64encode b).
Proof.
  induction b as [|x|x y|x y z rest IH] using triples_ind; cbn [b64encode app];
    repeat (apply Forall_cons_2; [first [apply b64_char_text | left] |]);
    first [apply Forall_nil_2 | exact IH].
Qed.

Lemma b64encode_without c b : c ∉ pad :: alphabet -> c ∉ b64encode b.
Proof.
  intros Hc Hin.
  pose proof (b64encode_text b) as H. rewrite Forall_forall in H.
  exact (Hc (H c Hin)).
Qed.

(** Decoding undoes encoding. *)
Lemma b64decode_b64encode b :
  Forall (fun x => x < 256) b -> b64decode (b64encode b) = Some b.
Proof.
  induction b as [|x|x y|x y z rest IH] using triples_ind; intros Hb.
  - reflexivity.
  - apply Forall_cons in Hb. destruct Hb as [Hx _].
    cbn [b64encode b64decode].
    rewrite !b64_index_char by lia. rewrite N.eqb_refl. cbn [andb].
    f_equal. f_equal. lia.
  - apply Forall_cons in Hb. destruct Hb as [Hx Hb].
    apply Forall_cons in Hb. destruct Hb as [Hy _].
    cbn [b64encode b64decode].
    rewrite !b64_index_char by lia.
    rewrite b64_char_not_pad by lia. rewrite N.eqb_refl. cbn [andb].
    f_equal. f_equal; [lia|]. f_equal. lia.
  - apply Forall_cons in Hb. destruct Hb as [Hx Hb].
    apply Forall_cons in Hb. destruct Hb as [Hy Hb].
    apply Forall_cons in Hb. destruct Hb as [Hz Hb].
    cbn [b64encode app b64decode].
    rewrite !b64_index_char by lia.
    rewrite !b64_char_not_pad by lia. cbn [andb].
    rewrite (IH Hb).
    f_equal. f_equal; [lia|]. f_equal; [lia|]. f_equal. lia.
Qed.

(** UTF-8 is made of octets. *)
Lemma utf8_char_octets c b :
  utf8_char c = Some b -> Forall (fun x => x < 256) b.
Proof.
  unfold utf8_char.
  destruct (N.ltb_spec c 0x80); [intros [= <-]; repeat constructor; lia|].
  destruct (N.ltb_spec c 0x800); [intros [= <-]; repeat constructor; lia|].
  destruct (N.ltb_spec c 0x10000).
  { destruct ((0xD800 <=? c) && (c <=? 0xDFFF)); [discriminate|].
    intros [= <-]; repeat constructor; lia. }
  destruct (N.ltb_spec c 0x110000); [|discriminate].
  intros [= <-]; repeat constructor; lia.
Qed.

Lemma encode_octets s b : encode s = Some b -> Forall (fun x => x < 256) b.
Proof.
  revert b. induction s as [|c s IH]; intros b; cbn [encode].
  - intros [= <-]. constructor.
  - destruct (utf8_char c) as [u|] eqn:Eu; [|discriminate].
    destruct (encode s) as [bs|]; [|discriminate].
    intros [= <-]. apply Forall_app. split; [exact (utf8_char_octets _ _ Eu) | auto].
Qed.

(** The round trip of a value through [b64encode(value.encode())]. *)
Lemma b64_round_trip value raw :
  encode value = Some raw -> b64decode (decode (b64encode raw)) = Some raw.
Proof.
  intros H. unfold decode. apply b64decode_b64encode. exact (encode_octets _ _ H).
Qed.

End CodecFacts.

(** ** The encoder *)

Section EncoderFacts.

Variable uppercase : char -> str.

Lemma encode_loop_spec prompts acc lines :
  fold_left
    (fun lines entry =>
       match lines, encode_entry uppercase entry with
       | Some lines, Some line => Some (lines ++ [line])
       | _, _ => None
       end) prompts acc = Some lines <->
  exists done new, acc = Some done /\ lines = done ++ new /\
                   Forall2 (entry_line uppercase) prompts new.
Proof.
  revert acc lines. induction prompts as [|entry prompts IH]; intros acc lines;
    cbn [fold_left].
  - split.
    + intros ->. exists lines, []. rewrite app_nil_r. repeat split. constructor.
    + intros [done [new [-> [-> H]]]]. apply Forall2_nil_inv_l in H. subst.
      rewrite app_nil_r. reflexivity.
  - rewrite IH. split.
    + intros [done [new [Hacc [-> H]]]].
      destruct acc as [done0|]; [|discriminate].
      destruct (encode_entry uppercase entry) as [line|] eqn:E; [|discriminate].
      injection Hacc as <-. exists done0, (line :: new).
      split; [reflexivity|]. split; [rewrite <- app_assoc; reflexivity|].
      constructor; assumption.
    + intros [done [new [-> [-> H]]]].
      apply Forall2_cons_inv_l in H. destruct H as [line [new' [E [H ->]]]].
      unfold entry_line in E. rewrite E.
      exists (done ++ [line]), new'. rewrite <- app_assoc. repeat split. exact H.
Qed.

(** The lines of [encode_prompts] are the lines of the entries, in order. *)
Lemma encode_prompts_lines prompts lines :
  encode_prompts uppercase prompts = Some lines <->
  Forall2 (entry_line uppercase) prompts lines.
Proof.
  unfold encode_prompts. rewrite encode_loop_spec. split.
  - intros [done [new [[= <-] [-> H]]]]. exact H.
  - intros H. exists [], lines. repeat split. exact H.
Qed.

Lemma replace_without old new s : old <> new -> old ∉ replace old new s.
Proof.
  intros Hne Hin. unfold replace in Hin.
  apply list_elem_of_In, in_map_iff in Hin. destruct Hin as [c [Hc _]].
  destruct (N.eqb_spec c old); congruence.
Qed.

Lemma env_key_dash_free key : dash ∉ env_key uppercase key.
Proof. apply replace_without. discriminate. Qed.

(** No line of the encoder has a ["-"], so none contains a sentinel. *)
Lemma encode_entry_dash_free entry line :
  entry_line uppercase entry line -> dash ∉ line.
Proof.
  unfold entry_line, encode_entry. destruct entry as [key value].
  destruct (Codec.encode value) as [raw|]; [|discriminate].
  intros [= <-]. apply not_elem_of_app. split; [apply env_key_dash_free|].
  cbn [app]. apply not_elem_of_cons. split; [discriminate|].
  unfold Codec.decode.
  apply b64encode_without. apply (bool_decide_unpack _). vm_compute. exact I.
Qed.

Lemma encode_prompts_marker_free prompts lines :
  encode_prompts uppercase prompts = Some lines ->
  Forall (fun line => marker_free line = true) lines.
Proof.
  rewrite encode_prompts_lines. induction 1 as [|entry line prompts lines H _ IH].
  - constructor.
  - constructor; [|exact IH].
    apply dash_free_marker_free. exact (encode_entry_dash_free _ _ H).
Qed.

End EncoderFacts.

Lemma after_first_app sep k p :
  sep ∉ k -> after_first sep (k ++ sep :: p) = Some p.
Proof.
  induction k as [|c k IH]; intros H; cbn [app after_first].
  - rewrite N.eqb_refl. reflexivity.
  - apply not_elem_of_cons in H. destruct H as [Hc H].
    destruct (N.eqb_spec c sep) as [->|_]; [contradiction | auto].
Qed.

Lemma before_first_app sep k p :
  sep ∉ k -> before_first sep (k ++ sep :: p) = Some k.
Proof.
  induction k as [|c k IH]; intros H; cbn [app before_first].
  - rewrite N.eqb_refl. reflexivity.
  - apply not_elem_of_cons in H. destruct H as [Hc H].
    destruct (N.eqb_spec c sep) as [->|_]; [contradiction|].
    rewrite (IH H). reflexivity.
Qed.

(** ** The two branches of the patch *)

Lemma well_formed_has_markers content :
  well_formed_block content ->
  str_in START_MARKER content = true /\ str_in END_MARKER content = true.
Proof.
  intros [before [mid [after H]]].
  assert (Hs : START_MARKER ∈ split nl content).
  { rewrite H. apply elem_of_app. right. left. }
  assert (He : END_MARKER ∈ split nl content).
  { rewrite H. rewrite !elem_of_app. right. right. right. left. left. }
  split; apply str_in_true; eapply split_piece_part; eassumption.
Qed.

Lemma join_flatten sep xs ys zs :
  ys <> [] ->
  join [sep] (xs ++ [join [sep] ys] ++ zs) = join [sep] (xs ++ ys ++ zs).
Proof.
  intros Hys.
  assert (Hmid : join [sep] ([join [sep] ys] ++ zs) = join [sep] (ys ++ zs)).
  { destruct zs as [|z zs].
    - rewrite !app_nil_r. reflexivity.
    - rewrite !join_app by (assumption || discriminate). reflexivity. }
  destruct xs as [|x xs]; [exact Hmid|].
  rewrite (join_app sep (x :: xs)) by discriminate.
  rewrite (join_app sep (x :: xs) (ys ++ zs)).
  - rewrite Hmid. reflexivity.
  - discriminate.
  - destruct ys; [contradiction | discriminate].
Qed.

(** Lines without separator are their own pieces. *)
Lemma concat_split_lines sep lines :
  Forall (fun line => sep ∉ line) lines ->
  concat (List.map (split sep) lines) = lines.
Proof.
  induction 1 as [|line lines Hl _ IH]; cbn [List.map concat]; [reflexivity|].
  rewrite (split_without _ _ Hl), IH. reflexivity.
Qed.

(** The loop over one block and text without sentinels around it. *)
Lemma replace_loop_block section before s mid e after :
  Forall (fun line => marker_free line = true) (before ++ mid ++ after) ->
  str_in START_MARKER s = true ->
  str_in START_MARKER e = false -> str_in END_MARKER e = true ->
  replace_loop section (before ++ [s] ++ mid ++ [e] ++ after) =
  (before ++ [section] ++ after, false).
Proof.
  intros Hfree Hs He1 He2.
  apply Forall_app in Hfree. destruct Hfree as [Hb Hfree].
  apply Forall_app in Hfree. destruct Hfree as [Hm Ha].
  unfold replace_loop.
  rewrite fold_left_app, (loop_keep _ _ _ Hb).
  replace ([s] ++ mid ++ [e] ++ after) with ((s :: mid ++ [e]) ++ after)
    by (cbn [app]; rewrite <- app_assoc; reflexivity).
  rewrite fold_left_app, (loop_block _ _ _ _ _ _ Hs Hm He1 He2).
  rewrite (loop_keep _ _ _ Ha), <- app_assoc. reflexivity.
Qed.

(** The replacement branch on a file with one block and no other occurrence
    of a sentinel text. *)
Lemma new_content_sole_block content before mid after prompt_lines :
  sole_block content before mid after ->
  new_content content prompt_lines =
  join [nl] (before ++ [new_section prompt_lines] ++ after).
Proof.
  intros [Hlines Hfree].
  assert (Hwf : well_formed_block content) by (exists before, mid, after; exact Hlines).
  destruct (well_formed_has_markers _ Hwf) as [Hs He].
  unfold new_content. rewrite Hs, He. cbn [andb]. rewrite Hlines.
  rewrite (replace_loop_block _ _ _ _ _ _ Hfree (str_in_refl _)
             END_MARKER_no_start (str_in_refl _)).
  reflexivity.
Qed.

Lemma sole_block_lines_one_line content before mid after :
  sole_block content before mid after ->
  Forall (fun line => nl ∉ line) before /\ Forall (fun line => nl ∉ line) after.
Proof.
  intros [Hlines _].
  split; apply Forall_forall; intros line Hin;
    apply (split_pieces_without nl content); rewrite Hlines, !elem_of_app.
  - left. exact Hin.
  - right. right. right. right. exact Hin.
Qed.

(** The lines of the result of the replacement branch. *)
Lemma new_content_sole_block_lines content before mid after prompt_lines :
  sole_block content before mid after ->
  split nl (new_content content prompt_lines) =
  before ++ split nl (new_section prompt_lines) ++ after.
Proof.
  intros H. rewrite (new_content_sole_block _ _ _ _ _ H).
  destruct (sole_block_lines_one_line _ _ _ _ H) as [Hb Ha].
  rewrite split_join by (destruct before; discriminate).
  rewrite !List.map_app, !concat_app. cbn [List.map concat].
  rewrite (concat_split_lines _ _ Hb), (concat_split_lines _ _ Ha), app_nil_r.
  reflexivity.
Qed.

(** [s.endswith(c)] for one character looks at the last character. *)
Lemma endswith_last c s :
  endswith [c] s = match last s with Some d => c =? d | None => false end.
Proof.
  unfold endswith. destruct s as [|d s _] using rev_ind; [reflexivity|].
  rewrite rev_app_distr, last_snoc. cbn. apply andb_true_r.
Qed.

Lemma last_join_tail front tail :
  front <> [] -> tail <> [] ->
  last (join [nl] (front ++ tail)) = last (nl :: join [nl] tail).
Proof.
  intros Hf Ht. rewrite (join_app _ _ _ Hf Ht). apply last_app_cons.
Qed.

Lemma last_new_section prompt_lines :
  last (new_section prompt_lines) = Some dash.
Proof.
  unfold new_section.
  change (START_MARKER :: prompt_lines ++ [END_MARKER])
    with ((START_MARKER :: prompt_lines) ++ [END_MARKER]).
  rewrite join_app by discriminate. cbn [join].
  rewrite last_app_cons. vm_compute. reflexivity.
Qed.

(** The replacement branch keeps the last character of the file. *)
Lemma new_content_sole_block_last content before mid after prompt_lines :
  sole_block content before mid after ->
  last (new_content content prompt_lines) = last content.
Proof.
  intros H. rewrite (new_content_sole_block _ _ _ _ _ H).
  destruct H as [Hlines _].
  rewrite <- (join_split nl content), Hlines.
  destruct after as [|a after].
  - rewrite !app_nil_r.
    replace (before ++ [START_MARKER] ++ mid ++ [END_MARKER])
      with ((before ++ [START_MARKER] ++ mid) ++ [END_MARKER])
      by (rewrite <- !app_assoc; reflexivity).
    rewrite (join_app nl (before ++ [START_MARKER] ++ mid))
      by (discriminate || (destruct before; discriminate)).
    cbn [join]. rewrite last_app_cons.
    transitivity (Some dash); [|vm_compute; reflexivity].
    destruct before as [|b before].
    + apply last_new_section.
    + rewrite join_app by discriminate. cbn [join].
      rewrite last_app_cons, last_cons, last_new_section. reflexivity.
  - replace (before ++ [new_section prompt_lines] ++ a :: after)
      with ((before ++ [new_section prompt_lines]) ++ a :: after)
      by (rewrite <- !app_assoc; reflexivity).
    replace (before ++ [START_MARKER] ++ mid ++ [END_MARKER] ++ a :: after)
      with ((before ++ [START_MARKER] ++ mid ++ [END_MARKER]) ++ a :: after)
      by (rewrite <- !app_assoc; reflexivity).
    rewrite !last_join_tail by (discriminate || (destruct before; discriminate)).
    reflexivity.
Qed.

Lemma endswith_true suffix s :
  endswith suffix s = true <-> exists t, s = t ++ suffix.
Proof.
  unfold endswith. rewrite startswith_true. split.
  - intros [t Ht]. exists (rev t).
    rewrite <- (rev_involutive s), Ht, rev_app_distr, rev_involutive. reflexivity.
  - intros [t ->]. exists (rev t). apply rev_app_distr.
Qed.

(** The lines of a file without sentinels, once it ends with a newline. *)
Lemma marker_free_terminated content :
  marker_free content = true ->
  Forall (fun line => marker_free line = true)
    (split nl (if negb (endswith [nl] content) then content ++ [nl] else content)).
Proof.
  intros H. destruct (negb (endswith [nl] content)).
  - rewrite split_app_sep. apply Forall_app. split.
    + apply marker_free_pieces, H.
    + repeat constructor.
  - apply marker_free_pieces, H.
Qed.

(** After the append branch the patch changes nothing more. *)
Lemma new_content_append_fixed content prompt_lines :
  marker_free content = true ->
  Forall (fun line => marker_free line = true) prompt_lines ->
  new_content (new_content content prompt_lines) prompt_lines =
  new_content content prompt_lines.
Proof.
  intros Hfree HL.
  pose proof (marker_free_terminated _ Hfree) as Hlines.
  assert (Hout : new_content content prompt_lines =
    join [nl] (split nl (if negb (endswith [nl] content)
                         then content ++ [nl] else content)
               ++ [new_section prompt_lines; []])).
  { unfold new_content. apply marker_free_true in Hfree. destruct Hfree as [-> ->].
    cbn [andb]. rewrite join_app by (apply split_not_nil || discriminate).
    rewrite join_split. reflexivity. }
  rewrite Hout. apply new_content_fixed.
  - exact HL.
  - apply Forall_app. split.
    + apply Forall_forall. intros line Hin. right. split.
      * rewrite Forall_forall in Hlines. apply Hlines, Hin.
      * exact (split_pieces_without _ _ _ Hin).
    + constructor; [left; reflexivity|]. constructor; [|constructor].
      right. split; [reflexivity | apply not_elem_of_nil].
  - apply elem_of_app. right. left.
Qed.

(** The encoder raises nothing on values made of scalar values. *)
Lemma encode_is_Some s :
  Forall scalar_value s -> is_Some (Codec.encode s).
Proof.
  induction 1 as [|c s Hc _ [bs IH]]; cbn [Codec.encode]; [eexists; reflexivity|].
  rewrite IH.
  assert (Hu : is_Some (Codec.utf8_char c)).
  { unfold Codec.utf8_char, scalar_value in *.
    destruct (N.ltb_spec c 0x80); [eexists; reflexivity|].
    destruct (N.ltb_spec c 0x800); [eexists; reflexivity|].
    destruct (N.ltb_spec c 0x10000).
    - destruct (N.leb_spec 0xD800 c); destruct (N.leb_spec c 0xDFFF);
        cbn [andb]; try (eexists; reflexivity). lia.
    - destruct (N.ltb_spec c 0x110000); [eexists; reflexivity | lia]. }
  destruct Hu as [u ->]. eexists. reflexivity.
Qed.

Lemma encode_prompts_is_Some uppercase prompts :
  Forall (fun entry => Forall scalar_value (snd entry)) prompts ->
  is_Some (encode_prompts uppercase prompts).
Proof.
  intros H.
  assert (Hex : exists lines, Forall2 (entry_line uppercase) prompts lines).
  { induction H as [|[key value] prompts Hv _ [lines IH]].
    - exists []. constructor.
    - cbn [snd] in Hv. destruct (encode_is_Some _ Hv) as [raw Hraw].
      eexists (_ :: lines). constructor; [|exact IH].
      unfold entry_line, encode_entry. rewrite Hraw. reflexivity. }
  destruct Hex as [lines Hlines]. exists lines.
  apply encode_prompts_lines. exact Hlines.
Qed.

(** What the append branch writes contains both sentinels: the next run takes
    the replacement branch. *)
Lemma append_has_markers content prompt_lines :
  marker_free content = true ->
  str_in START_MARKER (new_content content prompt_lines) = true /\
  str_in END_MARKER (new_content content prompt_lines) = true.
Proof.
  intros Hfree. apply marker_free_true in Hfree. destruct Hfree as [Hs He].
  unfold new_content. rewrite Hs, He. cbn [andb].
  set (prior := if negb (endswith [nl] content) then content ++ [nl] else content).
  replace (prior ++ [nl] ++ new_section prompt_lines ++ [nl])
    with ((prior ++ [nl]) ++ new_section prompt_lines ++ [nl])
    by (rewrite <- app_assoc; reflexivity).
  split; apply str_in_app; [apply new_section_has_start | apply new_section_has_end].
Qed.

(** ** Trimming and the key transform *)

Lemma lstrip_part s : exists a, s = a ++ lstrip s.
Proof.
  induction s as [|c s [a IH]]; cbn [lstrip].
  - exists []. reflexivity.
  - destruct (is_space c).
    + exists (c :: a). cbn [app]. rewrite <- IH. reflexivity.
    + exists []. reflexivity.
Qed.

(** The trimmed line is a part of the line. *)
Lemma strip_part s : exists a b, s = a ++ strip s ++ b.
Proof.
  destruct (lstrip_part s) as [a Ha].
  destruct (lstrip_part (rev (lstrip s))) as [b Hb].
  exists a, (rev b). unfold strip.
  rewrite <- rev_app_distr, <- Hb, rev_involutive. exact Ha.
Qed.

Lemma replace_id old new s : old ∉ s -> replace old new s = s.
Proof.
  induction s as [|c s IH]; intros H; [reflexivity|].
  apply not_elem_of_cons in H. destruct H as [Hc H].
  unfold replace in *. cbn [List.map]. rewrite (IH H).
  destruct (N.eqb_spec c old) as [->|_]; [contradiction | reflexivity].
Qed.

Lemma replace_app old new s t :
  replace old new (s ++ t) = replace old new s ++ replace old new t.
Proof. apply List.map_app. Qed.

Lemma replace_cons old new c s :
  replace old new (c :: s) = (if c =? old then new else c) :: replace old new s.
Proof. reflexivity. Qed.

Lemma ascii_upper_dash c : ascii_upper c = dash -> c = dash.
Proof.
  unfold ascii_upper, dash.
  destruct (N.leb_spec 97 c); destruct (N.leb_spec c 122); cbn [andb]; lia.
Qed.

Section UpperSnake.

Variable uppercase : char -> str.

(** On ASCII the table is the uppercase mapping of ASCII. *)
Hypothesis uppercase_ascii : forall c, c < 128 -> uppercase c = [ascii_upper c].

(** Beyond ASCII no uppercase mapping has a ["-"]. *)
Hypothesis uppercase_dash : forall c, 128 <= c -> dash ∉ uppercase c.

Lemma uppercase_dash_free c : c <> dash -> dash ∉ uppercase c.
Proof.
  intros Hc. destruct (N.lt_ge_cases c 128) as [Hlt|Hge].
  - rewrite (uppercase_ascii _ Hlt). apply not_elem_of_cons.
    split; [|apply not_elem_of_nil].
    intros H. symmetry in H. exact (Hc (ascii_upper_dash _ H)).
  - exact (uppercase_dash _ Hge).
Qed.

(** Replacing after upper-casing is upper-casing after replacing. *)
Lemma env_key_upper_snake key :
  env_key uppercase key = upper_snake uppercase key.
Proof.
  unfold env_key, upper_snake, upper.
  induction key as [|c key IH]; [reflexivity|].
  rewrite replace_cons. cbn [flat_map]. rewrite replace_app, IH.
  f_equal. destruct (N.eqb_spec c dash) as [->|Hc].
  - rewrite !uppercase_ascii by (unfold dash, underscore; lia). reflexivity.
  - apply replace_id, uppercase_dash_free, Hc.
Qed.

Lemma upper_ascii s :
  Forall (fun c => c < 128) s -> upper uppercase s = List.map ascii_upper s.
Proof.
  unfold upper. induction 1 as [|c s Hc _ IH]; [reflexivity|].
  cbn [flat_map List.map]. rewrite (uppercase_ascii _ Hc), IH. reflexivity.
Qed.

End UpperSnake.

(** Base64 text is ASCII, so that decoding it as text keeps every number. *)
Lemma b64encode_ascii b : Forall (fun c => c < 128) (Codec.b64encode b).
Proof.
  eapply Forall_impl; [apply b64encode_text|].
  intros c Hc. apply list_elem_of_In in Hc. vm_compute in Hc.
  intuition (subst; reflexivity).
Qed.

(** * The claims *)

(** C3: for every prompt set and every file content with a well-formed managed
    block (both sentinel lines, the start one strictly before the end one),
    patching twice with the encoded lines of the prompt set gives the same
    content as patching once. *)
Theorem patch_twice_is_patch_once uppercase prompts lines content :
  encode_prompts uppercase prompts = Some lines ->
  well_formed_block content ->
  new_content (new_content content lines) lines = new_content content lines.
Proof.
  intros Henc Hwf. destruct (well_formed_has_markers _ Hwf) as [Hs He].
  apply new_content_idempotent; [|exact Hs | exact He].
  exact (encode_prompts_marker_free _ _ _ Henc).
Qed.

Lemma patch_twice_is_patch_once_witness :
  encode_prompts ascii_uppercase sample_prompts = Some sample_lines /\
  well_formed_block sample_env /\
  new_content (new_content sample_env sample_lines) sample_lines =
  new_content sample_env sample_lines.
Proof.
  assert (H1 : encode_prompts ascii_uppercase sample_prompts = Some sample_lines)
    by (vm_compute; reflexivity).
  assert (H2 : well_formed_block sample_env).
  { exists [lit "A=1"], [lit "OLD=x"], [lit "B=2"; []]. vm_compute. reflexivity. }
  split; [exact H1|]. split; [exact H2|].
  exact (patch_twice_is_patch_once _ _ _ _ H1 H2).
Defined.

(** C9: for every file content that contains neither sentinel and ends with a
    newline, patching with encoded lines and patching the result again with
    the same lines gives the content of the single patch; the second patch
    takes the replacement branch, on the block that the first one appended. *)
Theorem patch_after_append_is_stable uppercase prompts lines content :
  encode_prompts uppercase prompts = Some lines ->
  str_in START_MARKER content = false ->
  str_in END_MARKER content = false ->
  endswith [nl] content = true ->
  new_content (new_content content lines) lines = new_content content lines /\
  str_in START_MARKER (new_content content lines) = true /\
  str_in END_MARKER (new_content content lines) = true.
Proof.
  intros Henc Hs He _.
  assert (Hfree : marker_free content = true)
    by (apply marker_free_true; split; assumption).
  split; [|exact (append_has_markers _ _ Hfree)].
  apply new_content_append_fixed; [exact Hfree|].
  exact (encode_prompts_marker_free _ _ _ Henc).
Qed.

Lemma patch_after_append_is_stable_witness :
  encode_prompts ascii_uppercase sample_prompts = Some sample_lines /\
  new_content (new_content sample_plain sample_lines) sample_lines =
  new_content sample_plain sample_lines.
Proof.
  assert (H1 : encode_prompts ascii_uppercase sample_prompts = Some sample_lines)
    by (vm_compute; reflexivity).
  split; [exact H1|].
  apply (patch_after_append_is_stable ascii_uppercase sample_prompts);
    [exact H1 | vm_compute; reflexivity ..].
Defined.

(** C5: for every file content with neither sentinel, the patch appends the
    block: the prior content (with a newline added when it does not end with
    one), one more newline, the start sentinel, the lines, the end sentinel
    and one final newline; ["A=1\n"] with [["FOO=YmFy"]] gives
    ["A=1\n\n<START>\nFOO=YmFy\n<END>\n"]. *)
Theorem append_block_when_absent content lines :
  str_in START_MARKER content = false ->
  str_in END_MARKER content = false ->
  let prior := if endswith [nl] content then content else content ++ [nl] in
  new_content content lines =
    prior ++ [nl] ++ join [nl] (START_MARKER :: lines ++ [END_MARKER]) ++ [nl] /\
  endswith [nl] prior = true /\
  endswith (END_MARKER ++ [nl]) (new_content content lines) = true /\
  (content = sample_plain -> lines = [lit "FOO=YmFy"] ->
   new_content content lines =
     lit "A=1" ++ [nl; nl] ++ START_MARKER ++ [nl] ++ lit "FOO=YmFy" ++ [nl]
     ++ END_MARKER ++ [nl]).
Proof.
  intros Hs He prior.
  assert (Hout : new_content content lines =
    prior ++ [nl] ++ join [nl] (START_MARKER :: lines ++ [END_MARKER]) ++ [nl]).
  { unfold new_content, prior. rewrite Hs, He. cbn [andb].
    destruct (endswith [nl] content); reflexivity. }
  split; [exact Hout|]. split; [|split].
  - unfold prior. destruct (endswith [nl] content) eqn:E; [exact E|].
    apply endswith_true. exists content. reflexivity.
  - rewrite Hout. apply endswith_true.
    change (START_MARKER :: lines ++ [END_MARKER])
      with ((START_MARKER :: lines) ++ [END_MARKER]).
    rewrite join_app by discriminate. cbn [join].
    exists (prior ++ [nl] ++ join [nl] (START_MARKER :: lines) ++ [nl]).
    rewrite <- !app_assoc. reflexivity.
  - intros -> ->. vm_compute. reflexivity.
Qed.

Lemma append_block_when_absent_witness :
  new_content sample_plain [lit "FOO=YmFy"] =
    lit "A=1" ++ [nl; nl] ++ START_MARKER ++ [nl] ++ lit "FOO=YmFy" ++ [nl]
    ++ END_MARKER ++ [nl].
Proof.
  refine (proj2 (proj2 (proj2
    (append_block_when_absent sample_plain [lit "FOO=YmFy"] _ _))) _ _);
    vm_compute; reflexivity.
Defined.

(** C4, as stated, fails: the file [sample_quoted] has a well-formed block and
    after it a comment line that quotes the end sentinel; that line is no
    sentinel line, and the patch removes it. *)
Lemma replace_frame_counterexample :
  split nl sample_quoted =
    [] ++ [START_MARKER] ++ [lit "OLD=x"] ++ [END_MARKER] ++ [sample_comment] /\
  ~ exact_sentinel sample_comment /\
  new_content sample_quoted sample_lines <>
    join [nl] ([] ++ [START_MARKER] ++ sample_lines ++ [END_MARKER]
               ++ [sample_comment]).
Proof.
  split; [vm_compute; reflexivity|]. split.
  - intros [H|H]; vm_compute in H; discriminate.
  - intros H. vm_compute in H. discriminate.
Qed.

(** C4, amended: for every file content whose lines are [before], the start
    sentinel, [mid], the end sentinel and [after], where no line of [before],
    [mid] and [after] contains a sentinel text, and for every list of new
    lines, the patched content is [before], the start sentinel, the new lines
    in order, the end sentinel and [after], joined by newlines; the lines of
    [mid] are gone. *)
Theorem replace_block_frame content before mid after lines :
  sole_block content before mid after ->
  new_content content lines =
    join [nl] (before ++ [START_MARKER] ++ lines ++ [END_MARKER] ++ after) /\
  split nl (new_content content lines) =
    before ++ [START_MARKER] ++ concat (List.map (split nl) lines)
    ++ [END_MARKER] ++ after.
Proof.
  intros H. split.
  - rewrite (new_content_sole_block _ _ _ _ _ H). unfold new_section.
    rewrite join_flatten by discriminate.
    cbn [app]. rewrite <- !app_assoc. reflexivity.
  - rewrite (new_content_sole_block_lines _ _ _ _ _ H), new_section_lines.
    cbn [app]. rewrite <- !app_assoc. reflexivity.
Qed.

Lemma replace_block_frame_witness :
  new_content sample_env sample_lines =
    join [nl] ([lit "A=1"] ++ [START_MARKER] ++ sample_lines ++ [END_MARKER]
               ++ [lit "B=2"; []]).
Proof.
  refine (proj1 (replace_block_frame sample_env [lit "A=1"] [lit "OLD=x"]
                   [lit "B=2"; []] sample_lines _)).
  split; [vm_compute; reflexivity|].
  repeat constructor.
Defined.

(** The replacement branch is also taken when the end sentinel comes first;
    then the final newline of the file is lost. *)
Example reversed_sentinels_lose_newline :
  str_in START_MARKER sample_reversed = true /\
  str_in END_MARKER sample_reversed = true /\
  endswith [nl] sample_reversed = true /\
  endswith [nl] (new_content sample_reversed sample_lines) = false.
Proof. repeat split; vm_compute; reflexivity. Qed.

(** C10, as stated, fails: [sample_quoted_start] has both sentinel lines, the
    start one first, so the replacement branch is taken; a comment after the
    block quotes the start sentinel; the file ends with a newline and the
    patched content does not. *)
Lemma trailing_newline_counterexample :
  well_formed_block sample_quoted_start /\
  ~ exact_sentinel sample_start_comment /\
  str_in START_MARKER sample_quoted_start = true /\
  str_in END_MARKER sample_quoted_start = true /\
  endswith [nl] sample_quoted_start = true /\
  endswith [nl] (new_content sample_quoted_start sample_lines) = false.
Proof.
  split.
  { exists [], [lit "OLD=x"], [sample_start_comment; []]. vm_compute. reflexivity. }
  split; [intros [H|H]; vm_compute in H; discriminate|].
  repeat split; vm_compute; reflexivity.
Qed.

(** C10, amended: when the lines of the file are [before], the start sentinel,
    [mid], the end sentinel and [after], and no line of [before], [mid] and
    [after] contains a sentinel text, the patched content ends with a newline
    exactly when the file did, and its lines are [before], the lines of the
    new block and [after]: no line, blank or not, is added or removed outside
    the block. *)
Theorem replace_keeps_trailing_newline content before mid after lines :
  sole_block content before mid after ->
  endswith [nl] (new_content content lines) = endswith [nl] content /\
  split nl (new_content content lines) =
    before ++ split nl (new_section lines) ++ after.
Proof.
  intros H. split.
  - rewrite !endswith_last, (new_content_sole_block_last _ _ _ _ _ H).
    reflexivity.
  - exact (new_content_sole_block_lines _ _ _ _ _ H).
Qed.

Lemma replace_keeps_trailing_newline_witness :
  endswith [nl] (new_content sample_env sample_lines) = endswith [nl] sample_env.
Proof.
  refine (proj1 (replace_keeps_trailing_newline sample_env [lit "A=1"]
                   [lit "OLD=x"] [lit "B=2"; []] sample_lines _)).
  split; [vm_compute; reflexivity|].
  repeat constructor.
Defined.

(** ** Reading and writing files *)

Lemma encode_app a b :
  Codec.encode (a ++ b) =
  match Codec.encode a, Codec.encode b with
  | Some x, Some y => Some (x ++ y)
  | _, _ => None
  end.
Proof.
  induction a as [|c a IH]; cbn [app Codec.encode].
  - destruct (Codec.encode b); reflexivity.
  - rewrite IH. destruct (Codec.utf8_char c) as [u|]; [|reflexivity].
    destruct (Codec.encode a) as [x|]; [|reflexivity].
    destruct (Codec.encode b) as [y|]; [|reflexivity].
    rewrite app_assoc. reflexivity.
Qed.

(** The confirmation can be printed exactly when the path can be encoded. *)
Lemma message_encodable env_file :
  is_Some (Codec.encode (check_mark :: lit " Prompts updated in " ++ env_file))
  <-> is_Some (Codec.encode env_file).
Proof.
  change (check_mark :: lit " Prompts updated in " ++ env_file)
    with ((check_mark :: lit " Prompts updated in ") ++ env_file).
  rewrite encode_app.
  replace (Codec.encode (check_mark :: lit " Prompts updated in "))
    with (Some (default [] (Codec.encode (check_mark :: lit " Prompts updated in "))))
    by (vm_compute; reflexivity).
  destruct (Codec.encode env_file); split; intros [x Hx]; eauto; discriminate.
Qed.

(** The call that returns. *)
Lemma update_env_file_returns env_file lines w i data content data' :
  stat w env_file = Some (i, RegularFile data) ->
  read_text data = Some content ->
  Codec.encode (new_content content lines) = Some data' ->
  is_Some (Codec.encode env_file) ->
  update_env_file env_file lines w =
  (Returned,
   {| files := files w;
      disk := <[i := RegularFile data']> (disk w);
      stdout := stdout w
                ++ [check_mark :: lit " Prompts updated in " ++ env_file];
      stderr := stderr w |}).
Proof.
  intros Hstat Hread Henc Hpath. unfold update_env_file.
  rewrite Hstat, Hread, Henc.
  apply message_encodable in Hpath. destruct Hpath as [m ->]. reflexivity.
Qed.

(** The ways in which the call ends. *)
Lemma update_env_file_cases env_file lines w :
  (stat w env_file = None /\
   update_env_file env_file lines w =
   (Exited 1,
    {| files := files w; disk := disk w; stdout := stdout w;
       stderr := stderr w ++ [lit "Error: " ++ env_file ++ lit " not found"] |}))
  \/
  (exists i, stat w env_file = Some (i, Directory) /\
   update_env_file env_file lines w = (Raised IsADirectoryError, w))
  \/
  (exists i data, stat w env_file = Some (i, RegularFile data) /\
   read_text data = None /\
   update_env_file env_file lines w = (Raised UnicodeDecodeError, w))
  \/
  (exists i data content, stat w env_file = Some (i, RegularFile data) /\
   read_text data = Some content /\
   Codec.encode (new_content content lines) = None /\
   update_env_file env_file lines w =
   (Raised UnicodeEncodeError, write_file i [] w))
  \/
  (exists i data content data', stat w env_file = Some (i, RegularFile data) /\
   read_text data = Some content /\
   Codec.encode (new_content content lines) = Some data' /\
   Codec.encode env_file = None /\
   update_env_file env_file lines w =
   (Raised UnicodeEncodeError, write_file i data' w))
  \/
  (exists i data content data', stat w env_file = Some (i, RegularFile data) /\
   read_text data = Some content /\
   Codec.encode (new_content content lines) = Some data' /\
   is_Some (Codec.encode env_file) /\
   update_env_file env_file lines w =
   (Returned,
    {| files := files w;
       disk := <[i := RegularFile data']> (disk w);
       stdout := stdout w
                 ++ [check_mark :: lit " Prompts updated in " ++ env_file];
       stderr := stderr w |})).
Proof.
  unfold update_env_file.
  destruct (stat w env_file) as [[i [data|]]|] eqn:Hstat.
  - destruct (read_text data) as [content|] eqn:Hread.
    + destruct (Codec.encode (new_content content lines)) as [data'|] eqn:Henc.
      * pose proof (message_encodable env_file) as Hm.
        destruct (Codec.encode (check_mark :: lit " Prompts updated in "
                                ++ env_file)) as [m|].
        -- do 5 right. exists i, data, content, data'.
           split; [reflexivity|]. split; [exact Hread|]. split; [exact Henc|].
           split; [apply Hm; eauto | reflexivity].
        -- do 4 right. left. exists i, data, content, data'.
           split; [reflexivity|]. split; [exact Hread|]. split; [exact Henc|].
           split; [|reflexivity].
           destruct (Codec.encode env_file); [|reflexivity].
           assert (Hs : is_Some (@None bytes)) by (apply Hm; eauto).
           destruct Hs as [x Hx]. discriminate.
      * do 3 right. left. exists i, data, content.
        split; [reflexivity|]. split; [exact Hread|]. split; [exact Henc|].
        reflexivity.
    + do 2 right. left. exists i, data.
      split; [reflexivity|]. split; [exact Hread | reflexivity].
  - right. left. exists i. split; reflexivity.
  - left. split; reflexivity.
Qed.

Lemma stat_sample_world content :
  stat (sample_world content) sample_path =
  Some (1%nat, RegularFile (default [] (Codec.encode content))).
Proof.
  unfold stat, sample_world. cbn [files disk].
  rewrite lookup_singleton_eq, lookup_singleton_eq. reflexivity.
Qed.

(** C1: the claim is right and the code is not.  At a file with the start
    sentinel and no end sentinel, [update_env_file] reports nothing: it
    returns, having appended a second block to the file; and a second call
    changes the file again, against the module's own promise that running
    the script several times gives the same result. *)
Theorem lone_sentinel_is_patched_silently :
  let w0 := sample_world sample_stray_start in
  let text1 := new_content sample_stray_start sample_lines in
  let text2 := new_content text1 sample_lines in
  let run1 := update_env_file sample_path sample_lines w0 in
  let run2 := update_env_file sample_path sample_lines (snd run1) in
  str_in START_MARKER sample_stray_start = true /\
  str_in END_MARKER sample_stray_start = false /\
  fst run1 = Returned /\
  stderr (snd run1) = [] /\
  text1 = sample_stray_start ++ [nl] ++ new_section sample_lines ++ [nl] /\
  disk (snd run1) !! 1%nat = Some (RegularFile (default [] (Codec.encode text1))) /\
  fst run2 = Returned /\
  disk (snd run2) !! 1%nat = Some (RegularFile (default [] (Codec.encode text2))) /\
  Codec.encode text2 <> Codec.encode text1.
Proof.
  intros w0 text1 text2 run1 run2.
  assert (Hpath : is_Some (Codec.encode sample_path))
    by (vm_compute; eexists; reflexivity).
  assert (Hrun1 : run1 =
    (Returned,
     {| files := files w0;
        disk := <[1%nat := RegularFile (default [] (Codec.encode text1))]> (disk w0);
        stdout := stdout w0
                  ++ [check_mark :: lit " Prompts updated in " ++ sample_path];
        stderr := stderr w0 |})).
  { apply (update_env_file_returns sample_path sample_lines w0 1%nat
             (default [] (Codec.encode sample_stray_start)) sample_stray_start).
    - apply stat_sample_world.
    - vm_compute. reflexivity.
    - vm_compute. reflexivity.
    - exact Hpath. }
  assert (Hrun2 : run2 =
    (Returned,
     {| files := files (snd run1);
        disk := <[1%nat := RegularFile (default [] (Codec.encode text2))]>
                  (disk (snd run1));
        stdout := stdout (snd run1)
                  ++ [check_mark :: lit " Prompts updated in " ++ sample_path];
        stderr := stderr (snd run1) |})).
  { apply (update_env_file_returns sample_path sample_lines (snd run1) 1%nat
             (default [] (Codec.encode text1)) text1).
    - rewrite Hrun1. unfold stat. cbn [snd files disk].
      unfold w0, sample_world. cbn [files disk].
      rewrite lookup_singleton_eq, lookup_insert_eq. reflexivity.
    - vm_compute. reflexivity.
    - vm_compute. reflexivity.
    - exact Hpath. }
  split; [vm_compute; reflexivity|]. split; [vm_compute; reflexivity|].
  split; [rewrite Hrun1; reflexivity|].
  split; [rewrite Hrun1; reflexivity|].
  split; [vm_compute; reflexivity|].
  split; [rewrite Hrun1; cbn [snd disk]; apply lookup_insert_eq|].
  split; [rewrite Hrun2; reflexivity|].
  split; [rewrite Hrun2; cbn [snd disk]; apply lookup_insert_eq|].
  intros H. vm_compute in H. discriminate.
Qed.

(** C8: for every path at which there is no file, [update_env_file] ends the
    process with status 1 after one line on the error stream, and writes
    nothing: the names and the files on the disk are as before and there is
    still no file at the path. *)
Theorem missing_target_fails w env_file lines :
  stat w env_file = None ->
  exists w',
    update_env_file env_file lines w = (Exited 1, w') /\
    files w' = files w /\
    disk w' = disk w /\
    stat w' env_file = None /\
    stdout w' = stdout w /\
    stderr w' = stderr w ++ [lit "Error: " ++ env_file ++ lit " not found"].
Proof.
  intros H. unfold update_env_file. rewrite H.
  eexists. split; [reflexivity|]. cbn [files disk stdout stderr].
  repeat split. exact H.
Qed.

Lemma missing_target_fails_witness :
  exists w',
    update_env_file sample_path sample_lines (World ∅ ∅ [] []) = (Exited 1, w') /\
    files w' = ∅ /\
    disk w' = ∅ /\
    stat w' sample_path = None /\
    stdout w' = [] /\
    stderr w' = [lit "Error: " ++ sample_path ++ lit " not found"].
Proof.
  apply (missing_target_fails (World ∅ ∅ [] []) sample_path sample_lines).
  unfold stat. cbn [files]. rewrite lookup_empty. reflexivity.
Defined.

(** C2, as stated, fails: the line [sample_comment] has other text in front
    of the end sentinel, its trimmed text is neither sentinel, and the loop
    takes it for the end sentinel. *)
Lemma exact_match_counterexample :
  ~ exact_sentinel sample_comment /\
  classify sample_comment = Some EndSentinel /\
  forall section acc,
    loop_body section (acc, true) sample_comment = (acc, false).
Proof.
  split; [intros [H|H]; vm_compute in H; discriminate|].
  split; [vm_compute; reflexivity|].
  intros section acc. apply loop_body_end; vm_compute; reflexivity.
Qed.

(** C2, amended: the loop takes a line for the start sentinel exactly when the
    start sentinel text occurs in it, for the end sentinel exactly when the
    end sentinel text occurs in it and the start one does not, and for no
    sentinel otherwise; a line whose trimmed text is a sentinel is taken for
    one, and so is every line that has a sentinel text anywhere in it. *)
Theorem classify_by_substring line :
  (classify line = Some StartSentinel <-> str_in START_MARKER line = true) /\
  (classify line = Some EndSentinel <->
   str_in START_MARKER line = false /\ str_in END_MARKER line = true) /\
  (classify line = None <-> marker_free line = true) /\
  (exact_sentinel line -> classify line <> None) /\
  (forall section acc skip,
     loop_body section (acc, skip) line =
     match classify line with
     | Some StartSentinel => (acc ++ [section], true)
     | Some EndSentinel => (acc, false)
     | None => (if skip then acc else acc ++ [line], skip)
     end).
Proof.
  assert (Hexact : exact_sentinel line ->
            str_in START_MARKER line = true \/ str_in END_MARKER line = true).
  { destruct (strip_part line) as [a [b Hab]].
    intros [H|H]; rewrite H in Hab; [left | right];
      apply str_in_true; exists a, b; exact Hab. }
  unfold classify, loop_body. rewrite marker_free_true.
  destruct (str_in START_MARKER line), (str_in END_MARKER line);
    (split; [|split; [|split; [|split]]]);
    try (split; intros H; try discriminate H; try reflexivity; try (split; reflexivity);
         destruct H; discriminate);
    try (intros _; discriminate);
    try (intros section acc skip; destruct skip; reflexivity).
  intros H. destruct (Hexact H); discriminate.
Qed.

Lemma classify_by_substring_witness :
  classify (lit "  " ++ START_MARKER) <> None.
Proof.
  refine (proj1 (proj2 (proj2 (proj2
            (classify_by_substring (lit "  " ++ START_MARKER))))) _).
  left. vm_compute. reflexivity.
Defined.

(** C6: for every prompt set and every entry of it whose env-var key has no
    ["="], the base64 decoding of the payload of its line (the text after the
    first ["="]) is the UTF-8 encoding of the value; the payload of the empty
    value is empty. *)
Theorem payload_round_trip uppercase prompts lines i key value :
  encode_prompts uppercase prompts = Some lines ->
  prompts !! i = Some (key, value) ->
  equals ∉ env_key uppercase key ->
  exists line payload raw,
    lines !! i = Some line /\
    after_first equals line = Some payload /\
    Codec.encode value = Some raw /\
    Codec.b64decode payload = Some raw /\
    (value = [] -> payload = []).
Proof.
  intros Henc Hi Hkey. apply encode_prompts_lines in Henc.
  destruct (Forall2_lookup_l _ _ _ _ _ Henc Hi) as [line [Hline Hentry]].
  unfold entry_line, encode_entry in Hentry.
  destruct (Codec.encode value) as [raw|] eqn:Eraw; [|discriminate].
  injection Hentry as <-.
  exists (env_key uppercase key ++ [equals] ++ Codec.decode (Codec.b64encode raw)),
         (Codec.decode (Codec.b64encode raw)), raw.
  split; [exact Hline|]. split; [apply after_first_app, Hkey|].
  split; [reflexivity|]. split; [exact (b64_round_trip _ _ Eraw)|].
  intros ->. injection Eraw as <-. reflexivity.
Qed.

Lemma payload_round_trip_witness :
  exists line payload raw,
    sample_lines !! 0%nat = Some line /\
    after_first equals line = Some payload /\
    Codec.encode (lit "bar") = Some raw /\
    Codec.b64decode payload = Some raw /\
    (lit "bar" = [] -> payload = []).
Proof.
  refine (payload_round_trip ascii_uppercase sample_prompts sample_lines 0
            (lit "system-prompt") (lit "bar") _ _ _).
  - vm_compute. reflexivity.
  - reflexivity.
  - apply (bool_decide_unpack _). vm_compute. exact I.
Defined.

(** With a ["="] in the key, the text after the first ["="] of the line is
    not the payload: the hypothesis on the key in the round trip is needed. *)
Example equals_in_key_shifts_payload :
  encode_prompts ascii_uppercase [(lit "a=b", lit "bar")] = Some [lit "A=B=YmFy"] /\
  after_first equals (lit "A=B=YmFy") = Some (lit "B=YmFy") /\
  Codec.b64decode (lit "B=YmFy") = None.
Proof. repeat split; vm_compute; reflexivity. Qed.

(** C7: the env-var key of every produced line is the upper-snake-case
    transform of the key of its entry (every ["-"] replaced by ["_"], all
    characters upper-cased); the key ["system-prompt"] gives [SYSTEM_PROMPT].
    The uppercase table is any one that is the ASCII mapping on ASCII and
    has no ["-"] beyond it, as the one of Unicode. *)
Theorem env_key_is_upper_snake uppercase :
  (forall c, c < 128 -> uppercase c = [ascii_upper c]) ->
  (forall c, 128 <= c -> dash ∉ uppercase c) ->
  (forall prompts lines i key value,
     encode_prompts uppercase prompts = Some lines ->
     prompts !! i = Some (key, value) ->
     exists payload,
       lines !! i = Some (upper_snake uppercase key ++ [equals] ++ payload) /\
       (equals ∉ upper_snake uppercase key ->
        before_first equals (upper_snake uppercase key ++ [equals] ++ payload)
        = Some (upper_snake uppercase key))) /\
  upper_snake uppercase (lit "system-prompt") = lit "SYSTEM_PROMPT".
Proof.
  intros Hascii Hdash. split.
  - intros prompts lines i key value Henc Hi.
    apply encode_prompts_lines in Henc.
    destruct (Forall2_lookup_l _ _ _ _ _ Henc Hi) as [line [Hline Hentry]].
    unfold entry_line, encode_entry in Hentry.
    destruct (Codec.encode value) as [raw|]; [|discriminate].
    injection Hentry as <-.
    rewrite (env_key_upper_snake _ Hascii Hdash) in Hline.
    exists (Codec.decode (Codec.b64encode raw)).
    split; [exact Hline|]. intros Hkey. apply before_first_app, Hkey.
  - unfold upper_snake. rewrite (upper_ascii _ Hascii).
    + vm_compute. reflexivity.
    + apply Forall_forall. intros c Hc. apply list_elem_of_In in Hc.
      vm_compute in Hc. intuition (subst; reflexivity).
Qed.

Lemma env_key_is_upper_snake_witness :
  upper_snake ascii_uppercase (lit "system-prompt") = lit "SYSTEM_PROMPT" /\
  exists payload,
    sample_lines !! 0%nat = Some (lit "SYSTEM_PROMPT" ++ [equals] ++ payload).
Proof.
  assert (H1 : forall c, c < 128 -> ascii_uppercase c = [ascii_upper c])
    by (intros c _; reflexivity).
  assert (H2 : forall c, 128 <= c -> dash ∉ ascii_uppercase c).
  { intros c Hc. unfold ascii_uppercase. apply not_elem_of_cons.
    split; [|apply not_elem_of_nil].
    intros H. symmetry in H. apply ascii_upper_dash in H.
    subst c. vm_compute in Hc. apply Hc. reflexivity. }
  destruct (env_key_is_upper_snake ascii_uppercase H1 H2) as [Hlines Hkey].
  split; [exact Hkey|].
  destruct (Hlines sample_prompts sample_lines 0%nat (lit "system-prompt")
              (lit "bar") eq_refl eq_refl) as [payload [Hline _]].
  exists payload. rewrite <- Hkey. exact Hline.
Defined.

(** * Further properties of the patcher *)

Lemma count_in_app needle lines1 lines2 :
  count_in needle (lines1 ++ lines2) =
  (count_in needle lines1 + count_in needle lines2)%nat.
Proof. unfold count_in. rewrite List.filter_app, length_app. reflexivity. Qed.

Lemma count_in_nil needle : count_in needle [] = 0%nat.
Proof. reflexivity. Qed.

Lemma count_in_cons needle line lines :
  count_in needle (line :: lines) =
  ((if str_in needle line then 1 else 0) + count_in needle lines)%nat.
Proof. unfold count_in. cbn [List.filter]. destruct (str_in needle line); reflexivity. Qed.

Lemma count_in_none needle lines :
  Forall (fun line => str_in needle line = false) lines ->
  count_in needle lines = 0%nat.
Proof.
  induction 1 as [|line lines Hl _ IH]; [reflexivity|].
  rewrite count_in_cons, Hl, IH. reflexivity.
Qed.

Lemma marker_free_no_start lines :
  Forall (fun line => marker_free line = true) lines ->
  Forall (fun line => str_in START_MARKER line = false) lines.
Proof.
  intros Hall. eapply Forall_impl; [exact Hall|].
  intros line H. apply marker_free_true in H. apply H.
Qed.

Lemma marker_free_no_end lines :
  Forall (fun line => marker_free line = true) lines ->
  Forall (fun line => str_in END_MARKER line = false) lines.
Proof.
  intros Hall. eapply Forall_impl; [exact Hall|].
  intros line H. apply marker_free_true in H. apply H.
Qed.

Lemma str_in_trans a b c :
  str_in a b = true -> str_in b c = true -> str_in a c = true.
Proof.
  intros Hab Hbc. apply str_in_true in Hbc. destruct Hbc as [x [y ->]].
  apply str_in_app, Hab.
Qed.

(** A text has a line with [needle] exactly when [needle] occurs in it, for a
    [needle] of one line. *)
Lemma count_in_split_pos needle content :
  nl ∉ needle ->
  (0 < count_in needle (split nl content))%nat <-> str_in needle content = true.
Proof.
  intros Hnl. split.
  - intros Hpos. destruct (str_in needle content) eqn:E; [reflexivity|].
    rewrite count_in_none in Hpos; [lia|].
    apply Forall_forall. intros line Hin.
    destruct (split_piece_part _ _ _ Hin) as [a [b Hab]].
    rewrite Hab in E. exact (str_in_false_app _ _ _ _ E).
  - intros H. destruct (str_in_split nl _ _ Hnl H) as [line [Hin Hl]].
    apply list_elem_of_split in Hin. destruct Hin as [l1 [l2 ->]].
    rewrite count_in_app, count_in_cons, Hl. lia.
Qed.

(** The loop appends one section for each line with the start sentinel. *)
Lemma loop_count_start section lines acc skip :
  str_in START_MARKER section = true ->
  count_in START_MARKER (fst (fold_left (loop_body section) lines (acc, skip))) =
  (count_in START_MARKER acc + count_in START_MARKER lines)%nat.
Proof.
  intros Hsec. revert acc skip.
  induction lines as [|line lines IH]; intros acc skip; cbn [fold_left].
  - cbn [fst]. rewrite ?count_in_nil. lia.
  - rewrite count_in_cons. unfold loop_body at 2.
    destruct (str_in START_MARKER line) eqn:Es;
      [|destruct (str_in END_MARKER line); [|destruct skip; cbn [negb]]];
      rewrite IH; rewrite ?count_in_app, ?count_in_cons, ?Hsec, ?Es;
      rewrite ?count_in_nil; lia.
Qed.

(** In the lines of settled items there is one start sentinel line and one
    end sentinel line for each section. *)
Lemma settled_counts prompt_lines items :
  Forall (fun line => marker_free line = true) prompt_lines ->
  Forall (settled (new_section prompt_lines)) items ->
  count_in START_MARKER (concat (List.map (split nl) items)) =
    count_in START_MARKER items /\
  count_in END_MARKER (concat (List.map (split nl) items)) =
    count_in START_MARKER items.
Proof.
  intros HL. pose proof (marker_free_all_pieces _ HL) as Hp.
  induction 1 as [|item items Hitem _ [IHs IHe]]; cbn [List.map concat].
  - split; reflexivity.
  - rewrite !count_in_app, IHs, IHe, (count_in_cons _ item).
    destruct Hitem as [->|[Hfree Hnl]].
    + rewrite new_section_lines, new_section_has_start.
      rewrite !count_in_cons, !count_in_app, !count_in_cons.
      rewrite (count_in_none _ _ (marker_free_no_start _ Hp)).
      rewrite (count_in_none _ _ (marker_free_no_end _ Hp)).
      rewrite !str_in_refl, END_MARKER_no_start.
      replace (str_in END_MARKER START_MARKER) with false by (vm_compute; reflexivity).
      rewrite ?count_in_nil. split; reflexivity.
    + rewrite (split_without _ _ Hnl), !count_in_cons.
      apply marker_free_true in Hfree. destruct Hfree as [-> ->].
      rewrite ?count_in_nil. split; reflexivity.
Qed.

Lemma appended_has_section prior section :
  str_in section (prior ++ [nl] ++ section ++ [nl]) = true.
Proof.
  apply str_in_true. exists (prior ++ [nl]), [nl].
  rewrite <- app_assoc. reflexivity.
Qed.

(** The new section occurs in whatever the patch returns. *)
Lemma new_content_has_section content prompt_lines :
  str_in (new_section prompt_lines) (new_content content prompt_lines) = true.
Proof.
  unfold new_content.
  destruct (str_in START_MARKER content) eqn:Hs;
    [destruct (str_in END_MARKER content) eqn:He|]; cbn [andb].
  - apply str_in_true. apply (join_item_part nl).
    apply replace_loop_emits, Hs.
  - apply appended_has_section.
  - apply appended_has_section.
Qed.

Lemma new_content_has_markers content prompt_lines :
  str_in START_MARKER (new_content content prompt_lines) = true /\
  str_in END_MARKER (new_content content prompt_lines) = true.
Proof.
  split; eapply str_in_trans; try apply new_content_has_section.
  - apply new_section_has_start.
  - apply new_section_has_end.
Qed.

(** The counts of sentinel lines after the replacement branch. *)
Lemma replace_counts content prompt_lines :
  Forall (fun line => marker_free line = true) prompt_lines ->
  str_in START_MARKER content = true ->
  str_in END_MARKER content = true ->
  count_in START_MARKER (split nl (new_content content prompt_lines)) =
    count_in START_MARKER (split nl content) /\
  count_in END_MARKER (split nl (new_content content prompt_lines)) =
    count_in START_MARKER (split nl content).
Proof.
  intros HL Hs He.
  pose proof (replace_loop_settled (new_section prompt_lines) content) as Hset.
  pose proof (replace_loop_emits (new_section prompt_lines) content Hs) as Hin.
  unfold new_content. rewrite Hs, He. cbn [andb].
  rewrite split_join by (intros Hnil; rewrite Hnil in Hin; inversion Hin).
  destruct (settled_counts _ _ HL Hset) as [-> ->].
  unfold replace_loop.
  rewrite (loop_count_start _ _ _ _ (new_section_has_start _)).
  rewrite ?count_in_nil. split; reflexivity.
Qed.

(** The lines that the loop copies are lines of its input, in their order. *)
Lemma loop_kept_sublist section lines skip :
  str_in START_MARKER section = true ->
  sublist (List.filter marker_free
             (fst (fold_left (loop_body section) lines ([], skip))))
          lines.
Proof.
  intros Hsec.
  assert (Hsecf : marker_free section = false).
  { unfold marker_free. rewrite Hsec. reflexivity. }
  revert skip. induction lines as [|line lines IH]; intros skip; cbn [fold_left].
  - constructor.
  - unfold loop_body at 2.
    destruct (str_in START_MARKER line) eqn:Es;
      [|destruct (str_in END_MARKER line) eqn:Ee; [|destruct skip; cbn [negb]]];
      cbn [app].
    + rewrite (loop_prefix _ _ [section]), List.filter_app.
      cbn [List.filter]. rewrite Hsecf. cbn [app]. apply sublist_cons, IH.
    + apply sublist_cons, IH.
    + apply sublist_cons, IH.
    + assert (Hl : marker_free line = true)
        by (apply marker_free_true; split; assumption).
      rewrite (loop_prefix _ _ [line]), List.filter_app.
      cbn [List.filter]. rewrite Hl. cbn [app]. apply sublist_skip, IH.
Qed.

(** The lines of a text to which the append branch has added its newline. *)
Lemma count_in_terminated needle content :
  str_in needle [] = false ->
  count_in needle
    (split nl (if negb (endswith [nl] content) then content ++ [nl] else content))
  = count_in needle (split nl content).
Proof.
  intros Hne. destruct (negb (endswith [nl] content)); [|reflexivity].
  rewrite split_app_sep, count_in_app. cbn [split].
  rewrite count_in_cons, Hne, count_in_nil. lia.
Qed.

(** The counts of sentinel lines after the append branch: one more of each. *)
Lemma append_counts content prompt_lines needle :
  Forall (fun line => marker_free line = true) prompt_lines ->
  needle = START_MARKER \/ needle = END_MARKER ->
  str_in START_MARKER content && str_in END_MARKER content = false ->
  count_in needle (split nl (new_content content prompt_lines)) =
  S (count_in needle (split nl content)).
Proof.
  intros HL Hneedle Hbranch. unfold new_content. rewrite Hbranch.
  assert (Hempty : str_in needle [] = false)
    by (destruct Hneedle as [->| ->]; vm_compute; reflexivity).
  assert (Hsec : count_in needle (split nl (new_section prompt_lines)) = 1%nat).
  { assert (Hset : Forall (settled (new_section prompt_lines))
                          [new_section prompt_lines])
      by (constructor; [left; reflexivity | constructor]).
    destruct (settled_counts _ _ HL Hset) as [Hs He].
    cbn [List.map concat] in Hs, He. rewrite app_nil_r in Hs, He.
    rewrite count_in_cons, new_section_has_start, count_in_nil in Hs, He.
    destruct Hneedle as [->| ->]; assumption. }
  cbn [app]. rewrite split_app_sep.
  replace (new_section prompt_lines ++ [nl])
    with (new_section prompt_lines ++ nl :: []) by reflexivity.
  rewrite split_app_sep, !count_in_app, Hsec. cbn [split].
  rewrite count_in_cons, Hempty, count_in_nil.
  rewrite (count_in_terminated _ _ Hempty). lia.
Qed.

(** X1: whatever the file held, the content that [update_env_file] computes
    contains the new block, and so both sentinels. *)
Theorem patch_always_installs_block content lines :
  str_in (new_section lines) (new_content content lines) = true /\
  str_in START_MARKER (new_content content lines) = true /\
  str_in END_MARKER (new_content content lines) = true.
Proof.
  split; [apply new_content_has_section | apply new_content_has_markers].
Qed.

(** X2: when the file does not contain both sentinels, the new content begins
    with the whole old content and ends with the new block and one newline:
    the append branch removes nothing. *)
Theorem append_keeps_old_content content lines :
  str_in START_MARKER content && str_in END_MARKER content = false ->
  startswith content (new_content content lines) = true /\
  endswith (new_section lines ++ [nl]) (new_content content lines) = true.
Proof.
  intros Hbranch. unfold new_content. rewrite Hbranch. split.
  - apply startswith_true. destruct (negb (endswith [nl] content)).
    + exists ([nl] ++ [nl] ++ new_section lines ++ [nl]).
      rewrite <- app_assoc. reflexivity.
    + exists ([nl] ++ new_section lines ++ [nl]). reflexivity.
  - apply endswith_true.
    exists ((if negb (endswith [nl] content) then content ++ [nl] else content)
            ++ [nl]).
    rewrite <- app_assoc. reflexivity.
Qed.

Lemma append_keeps_old_content_witness :
  startswith sample_stray_start (new_content sample_stray_start sample_lines)
    = true /\
  endswith (new_section sample_lines ++ [nl])
    (new_content sample_stray_start sample_lines) = true.
Proof.
  apply (append_keeps_old_content sample_stray_start sample_lines).
  vm_compute. reflexivity.
Defined.

(** X3: in the replacement branch the new content is made of items joined by
    newlines, each of them the new block or a line of the old content in
    which no sentinel occurs, and the lines kept are in the order they had:
    the patch writes no other text and moves none. *)
Theorem replace_writes_block_and_old_lines content lines :
  str_in START_MARKER content = true ->
  str_in END_MARKER content = true ->
  exists items,
    new_content content lines = join [nl] items /\
    Forall (fun item =>
              item = new_section lines \/
              (item ∈ split nl content /\ marker_free item = true)) items /\
    sublist (List.filter marker_free items) (split nl content).
Proof.
  intros Hs He.
  exists (fst (replace_loop (new_section lines) (split nl content))).
  split; [unfold new_content; rewrite Hs, He; reflexivity|]. split.
  - apply Forall_forall. intros item Hin. apply loop_output in Hin.
    destruct Hin as [Hin|[Hin|Hin]]; [inversion Hin | left; exact Hin | right; exact Hin].
  - apply loop_kept_sublist, new_section_has_start.
Qed.

Lemma replace_writes_block_and_old_lines_witness :
  exists items,
    new_content sample_quoted sample_lines = join [nl] items /\
    Forall (fun item =>
              item = new_section sample_lines \/
              (item ∈ split nl sample_quoted /\ marker_free item = true)) items /\
    sublist (List.filter marker_free items) (split nl sample_quoted).
Proof.
  apply (replace_writes_block_and_old_lines sample_quoted sample_lines);
    vm_compute; reflexivity.
Defined.

(** X4: after a replacement the file has as many start sentinel lines, and as
    many end sentinel lines, as the old content had lines in which the start
    sentinel occurs: each such line becomes one copy of the new block. *)
Theorem one_block_per_start_line uppercase prompts lines content :
  encode_prompts uppercase prompts = Some lines ->
  str_in START_MARKER content = true ->
  str_in END_MARKER content = true ->
  count_in START_MARKER (split nl (new_content content lines)) =
    count_in START_MARKER (split nl content) /\
  count_in END_MARKER (split nl (new_content content lines)) =
    count_in START_MARKER (split nl content).
Proof.
  intros Henc. apply replace_counts.
  exact (encode_prompts_marker_free _ _ _ Henc).
Qed.

Lemma one_block_per_start_line_witness :
  count_in START_MARKER (split nl (new_content sample_quoted_start sample_lines))
    = 2%nat /\
  count_in END_MARKER (split nl (new_content sample_quoted_start sample_lines))
    = 2%nat.
Proof.
  assert (H : count_in START_MARKER (split nl sample_quoted_start) = 2%nat)
    by (vm_compute; reflexivity).
  rewrite <- H.
  apply (one_block_per_start_line ascii_uppercase sample_prompts);
    vm_compute; reflexivity.
Defined.

(** X5: two runs are always enough: for the lines of the encoder and any file
    content, a third patch changes nothing that the second one left. *)
Theorem patch_stable_after_two_runs uppercase prompts lines content :
  encode_prompts uppercase prompts = Some lines ->
  new_content (new_content (new_content content lines) lines) lines =
  new_content (new_content content lines) lines.
Proof.
  intros Henc. destruct (new_content_has_markers content lines) as [Hs He].
  apply new_content_idempotent; [|exact Hs | exact He].
  exact (encode_prompts_marker_free _ _ _ Henc).
Qed.

Lemma patch_stable_after_two_runs_witness :
  new_content (new_content (new_content sample_stray_start sample_lines)
                 sample_lines) sample_lines =
  new_content (new_content sample_stray_start sample_lines) sample_lines.
Proof.
  apply (patch_stable_after_two_runs ascii_uppercase sample_prompts).
  vm_compute. reflexivity.
Defined.

(** X6: a file with exactly one of the two sentinels is not patched
    idempotently: the second run gives a content different from the first
    one's, whatever the file is otherwise. *)
Theorem lone_sentinel_breaks_idempotence uppercase prompts lines content :
  encode_prompts uppercase prompts = Some lines ->
  xorb (str_in START_MARKER content) (str_in END_MARKER content) = true ->
  new_content (new_content content lines) lines <> new_content content lines.
Proof.
  intros Henc Hxor Hsame.
  pose proof (encode_prompts_marker_free _ _ _ Henc) as HL.
  assert (Hbranch : str_in START_MARKER content && str_in END_MARKER content = false)
    by (destruct (str_in START_MARKER content), (str_in END_MARKER content);
        reflexivity || discriminate).
  destruct (new_content_has_markers content lines) as [Hs He].
  destruct (replace_counts _ _ HL Hs He) as [_ Hcount].
  rewrite Hsame in Hcount.
  rewrite !(append_counts _ _ _ HL) in Hcount by (auto || exact Hbranch).
  pose proof (count_in_split_pos _ content START_MARKER_one_line) as Hps.
  pose proof (count_in_split_pos _ content END_MARKER_one_line) as Hpe.
  destruct (str_in START_MARKER content), (str_in END_MARKER content);
    try discriminate.
  - assert (0 < count_in START_MARKER (split nl content))%nat by (apply Hps; reflexivity).
    assert (~ (0 < count_in END_MARKER (split nl content))%nat)
      by (intros H'; apply Hpe in H'; discriminate).
    lia.
  - assert (0 < count_in END_MARKER (split nl content))%nat by (apply Hpe; reflexivity).
    assert (~ (0 < count_in START_MARKER (split nl content))%nat)
      by (intros H'; apply Hps in H'; discriminate).
    lia.
Qed.

Lemma lone_sentinel_breaks_idempotence_witness :
  new_content (new_content sample_stray_start sample_lines) sample_lines <>
  new_content sample_stray_start sample_lines.
Proof.
  apply (lone_sentinel_breaks_idempotence ascii_uppercase sample_prompts);
    vm_compute; reflexivity.
Defined.

(** * Further properties of the encoder *)

Lemma b64encode_length b :
  length (Codec.b64encode b) = (4 * ((length b + 2) / 3))%nat.
Proof.
  induction b as [|x|x y|x y z rest IH] using triples_ind;
    try reflexivity.
  cbn [Codec.b64encode app length]. rewrite IH.
  replace (S (S (S (length rest))) + 2)%nat with (length rest + 2 + 1 * 3)%nat by lia.
  rewrite Nat.div_add by discriminate. lia.
Qed.

(** The four shapes of UTF-8. *)
Lemma utf8_char_cases c u :
  Codec.utf8_char c = Some u ->
  (c < 0x80 /\ u = [c]) \/
  (0x80 <= c < 0x800 /\ u = [0xC0 + c / 64; 0x80 + c mod 64]) \/
  (0x800 <= c < 0x10000 /\ (c < 0xD800 \/ 0xDFFF < c) /\
   u = [0xE0 + c / 4096; 0x80 + (c / 64) mod 64; 0x80 + c mod 64]) \/
  (0x10000 <= c < 0x110000 /\
   u = [0xF0 + c / 262144; 0x80 + (c / 4096) mod 64;
        0x80 + (c / 64) mod 64; 0x80 + c mod 64]).
Proof.
  unfold Codec.utf8_char.
  destruct (N.ltb_spec c 0x80); [intros [= <-]; left; split; [assumption | reflexivity]|].
  destruct (N.ltb_spec c 0x800);
    [intros [= <-]; right; left; split; [lia | reflexivity]|].
  destruct (N.ltb_spec c 0x10000).
  { destruct (N.leb_spec 0xD800 c); destruct (N.leb_spec c 0xDFFF); cbn [andb];
      try discriminate; intros [= <-]; right; right; left;
      (split; [lia | split; [lia | reflexivity]]). }
  destruct (N.ltb_spec c 0x110000); [|discriminate].
  intros [= <-]. right. right. right. split; [lia | reflexivity].
Qed.

Lemma utf8_char_scalar c u : Codec.utf8_char c = Some u -> scalar_value c.
Proof.
  intros H. unfold scalar_value.
  destruct (utf8_char_cases _ _ H) as [[? _]|[[? _]|[[? [? _]]|[? _]]]]; lia.
Qed.

Lemma encode_scalar s raw :
  Codec.encode s = Some raw -> Forall scalar_value s.
Proof.
  revert raw. induction s as [|c s IH]; intros raw; cbn [Codec.encode].
  - constructor.
  - destruct (Codec.utf8_char c) as [u|] eqn:Eu; [|discriminate].
    destruct (Codec.encode s) as [bs|]; [|discriminate].
    intros _. constructor; [exact (utf8_char_scalar _ _ Eu) | eauto].
Qed.

(** UTF-8 is a prefix code: the first character of a text is read off its
    encoding. *)
Lemma utf8_char_prefix c1 c2 u1 u2 t1 t2 :
  Codec.utf8_char c1 = Some u1 -> Codec.utf8_char c2 = Some u2 ->
  u1 ++ t1 = u2 ++ t2 -> c1 = c2 /\ t1 = t2.
Proof.
  intros H1 H2 H.
  destruct (utf8_char_cases _ _ H1) as [[? ->]|[[? ->]|[[? [? ->]]|[? ->]]]];
    destruct (utf8_char_cases _ _ H2) as [[? ->]|[[? ->]|[[? [? ->]]|[? ->]]]];
    cbn [app] in H;
    repeat match goal with
           | E : _ :: _ = _ :: _ |- _ => injection E as ? E
           end;
    (split; [lia | first [assumption | exfalso; lia]]).
Qed.

Lemma utf8_char_not_nil c : Codec.utf8_char c <> Some [].
Proof.
  intros H.
  destruct (utf8_char_cases _ _ H) as [[? E]|[[? E]|[[? [? E]]|[? E]]]];
    discriminate E.
Qed.

(** Two texts with the same UTF-8 encoding are the same text. *)
Lemma encode_injective s1 s2 raw :
  Codec.encode s1 = Some raw -> Codec.encode s2 = Some raw -> s1 = s2.
Proof.
  revert s2 raw. induction s1 as [|c1 s1 IH]; intros s2 raw; cbn [Codec.encode].
  - intros [= <-]. destruct s2 as [|c2 s2]; [reflexivity|]. cbn [Codec.encode].
    destruct (Codec.utf8_char c2) as [u|] eqn:Eu; [|discriminate].
    destruct (Codec.encode s2); [|discriminate].
    intros [= H]. apply app_eq_nil in H. destruct H as [-> _].
    exfalso. exact (utf8_char_not_nil _ Eu).
  - destruct (Codec.utf8_char c1) as [u1|] eqn:Eu1; [|discriminate].
    destruct (Codec.encode s1) as [bs1|] eqn:Es1; [|discriminate].
    intros [= <-]. destruct s2 as [|c2 s2]; cbn [Codec.encode].
    + intros [= H]. symmetry in H. apply app_eq_nil in H. destruct H as [-> _].
      exfalso. exact (utf8_char_not_nil _ Eu1).
    + destruct (Codec.utf8_char c2) as [u2|] eqn:Eu2; [|discriminate].
      destruct (Codec.encode s2) as [bs2|] eqn:Es2; [|discriminate].
      intros [= H].
      destruct (utf8_char_prefix _ _ _ _ _ _ Eu1 Eu2 (eq_sym H)) as [-> ->].
      f_equal. exact (IH _ _ eq_refl Es2).
Qed.

Lemma ascii_upper_idempotent c : ascii_upper (ascii_upper c) = ascii_upper c.
Proof.
  unfold ascii_upper.
  destruct (N.leb_spec 97 c); destruct (N.leb_spec c 122); cbn [andb];
    repeat (match goal with
            | |- context [?a <=? ?b] => destruct (N.leb_spec a b)
            end; cbn [andb]); lia.
Qed.

Lemma ascii_upper_ascii c : c < 128 -> ascii_upper c < 128.
Proof.
  unfold ascii_upper.
  destruct (N.leb_spec 97 c); destruct (N.leb_spec c 122); cbn [andb]; lia.
Qed.

Lemma ascii_upper_not_lower c : ~ (97 <= ascii_upper c <= 122).
Proof.
  unfold ascii_upper.
  destruct (N.leb_spec 97 c); destruct (N.leb_spec c 122); cbn [andb]; lia.
Qed.

(** X13: [encode_prompts] returns one line for each item of the mapping, in
    the order of the items, and the line of an item is its env-var key, ["="]
    and the base64 text of the UTF-8 encoding of its value. *)
Theorem encode_prompts_one_line_per_item uppercase prompts lines :
  encode_prompts uppercase prompts = Some lines ->
  length lines = length prompts /\
  forall i key value,
    prompts !! i = Some (key, value) ->
    exists raw,
      Codec.encode value = Some raw /\
      lines !! i = Some (env_key uppercase key ++ [equals]
                         ++ Codec.b64encode raw).
Proof.
  intros Henc. apply encode_prompts_lines in Henc. split.
  - symmetry. exact (Forall2_length _ _ _ Henc).
  - intros i key value Hi.
    destruct (Forall2_lookup_l _ _ _ _ _ Henc Hi) as [line [Hline Hentry]].
    unfold entry_line, encode_entry in Hentry.
    destruct (Codec.encode value) as [raw|]; [|discriminate].
    injection Hentry as <-. exists raw. split; [reflexivity | exact Hline].
Qed.

Lemma encode_prompts_one_line_per_item_witness :
  length sample_lines = length sample_prompts.
Proof.
  apply (encode_prompts_one_line_per_item ascii_uppercase sample_prompts).
  vm_compute. reflexivity.
Defined.

(** X14: [encode_prompts] raises exactly when some value has a code point
    without UTF-8 encoding (a surrogate): it returns lines if and only if
    every code point of every value is a Unicode scalar value.  The keys
    play no part in this. *)
Theorem encode_prompts_returns_iff uppercase prompts :
  is_Some (encode_prompts uppercase prompts) <->
  Forall (fun entry => Forall scalar_value (snd entry)) prompts.
Proof.
  split; [|apply encode_prompts_is_Some].
  intros [lines Henc]. apply encode_prompts_lines in Henc.
  induction Henc as [|[key value] line prompts lines Hentry _ IH]; constructor;
    [|exact IH].
  unfold entry_line, encode_entry in Hentry. cbn [snd].
  destruct (Codec.encode value) as [raw|] eqn:E; [|discriminate].
  exact (encode_scalar _ _ E).
Qed.

(** X15: no line of the encoder contains a ["-"], and so none contains the
    start or the end sentinel, whatever the keys and values are. *)
Theorem encoded_lines_hold_no_sentinel uppercase prompts lines :
  encode_prompts uppercase prompts = Some lines ->
  Forall (fun line =>
            (dash ∉ line) /\
            str_in START_MARKER line = false /\
            str_in END_MARKER line = false) lines.
Proof.
  rewrite encode_prompts_lines.
  induction 1 as [|entry line prompts lines H _ IH]; constructor; [|exact IH].
  pose proof (encode_entry_dash_free _ _ _ H) as Hd.
  split; [exact Hd|]. apply marker_free_true, dash_free_marker_free, Hd.
Qed.

Lemma encoded_lines_hold_no_sentinel_witness :
  Forall (fun line =>
            (dash ∉ line) /\
            str_in START_MARKER line = false /\
            str_in END_MARKER line = false) sample_lines.
Proof.
  apply (encoded_lines_hold_no_sentinel ascii_uppercase sample_prompts).
  vm_compute. reflexivity.
Defined.

(** X16: the payload of every line is base64 text on one line: all its
    characters are of the base64 alphabet or the padding, there is no newline
    in it, and it has four characters for every three octets of the UTF-8
    encoding of the value, the last group padded. *)
Theorem payload_is_base64_text uppercase prompts lines i key value :
  encode_prompts uppercase prompts = Some lines ->
  prompts !! i = Some (key, value) ->
  exists raw payload,
    Codec.encode value = Some raw /\
    lines !! i = Some (env_key uppercase key ++ [equals] ++ payload) /\
    Forall (fun c => c ∈ Codec.pad :: Codec.alphabet) payload /\
    (nl ∉ payload) /\
    length payload = (4 * ((length raw + 2) / 3))%nat.
Proof.
  intros Henc Hi. apply encode_prompts_lines in Henc.
  destruct (Forall2_lookup_l _ _ _ _ _ Henc Hi) as [line [Hline Hentry]].
  unfold entry_line, encode_entry in Hentry.
  destruct (Codec.encode value) as [raw|]; [|discriminate].
  injection Hentry as <-. exists raw, (Codec.b64encode raw).
  split; [reflexivity|]. split; [exact Hline|].
  split; [apply b64encode_text|]. split; [|apply b64encode_length].
  apply b64encode_without. apply (bool_decide_unpack _). vm_compute. exact I.
Qed.

Lemma payload_is_base64_text_witness :
  exists raw payload,
    Codec.encode (lit "bar") = Some raw /\
    sample_lines !! 0%nat =
      Some (env_key ascii_uppercase (lit "system-prompt") ++ [equals] ++ payload) /\
    Forall (fun c => c ∈ Codec.pad :: Codec.alphabet) payload /\
    (nl ∉ payload) /\
    length payload = (4 * ((length raw + 2) / 3))%nat.
Proof.
  apply (payload_is_base64_text ascii_uppercase sample_prompts sample_lines 0).
  - vm_compute. reflexivity.
  - reflexivity.
Defined.

(** X17: the encoding of values loses nothing: two different values never
    have the same payload. *)
Theorem distinct_values_distinct_payloads value1 value2 raw1 raw2 :
  Codec.encode value1 = Some raw1 ->
  Codec.encode value2 = Some raw2 ->
  value1 <> value2 ->
  Codec.decode (Codec.b64encode raw1) <> Codec.decode (Codec.b64encode raw2).
Proof.
  intros H1 H2 Hne Hsame. apply Hne.
  pose proof (b64_round_trip _ _ H1) as R1.
  pose proof (b64_round_trip _ _ H2) as R2.
  rewrite Hsame, R2 in R1. injection R1 as <-.
  exact (encode_injective _ _ _ H1 H2).
Qed.

Lemma distinct_values_distinct_payloads_witness :
  Codec.decode (Codec.b64encode (lit "bar")) <>
  Codec.decode (Codec.b64encode (lit "baz")).
Proof.
  apply (distinct_values_distinct_payloads (lit "bar") (lit "baz"));
    [vm_compute; reflexivity | vm_compute; reflexivity |].
  vm_compute. discriminate.
Defined.

(** X18: the key transform does not tell ["-"] from ["_"], nor an ASCII
    letter from its capital: a key, the key with ["_"] for every ["-"], and
    (for an ASCII key) the key in capitals have the same env-var key, so
    their lines assign the same variable. *)
Theorem keys_collide uppercase key :
  (forall c, c < 128 -> uppercase c = [ascii_upper c]) ->
  (forall c, 128 <= c -> dash ∉ uppercase c) ->
  env_key uppercase (replace dash underscore key) = env_key uppercase key /\
  (Forall (fun c => c < 128) key ->
   env_key uppercase (List.map ascii_upper key) = env_key uppercase key).
Proof.
  intros Hascii Hdash. split.
  - rewrite !(env_key_upper_snake _ Hascii Hdash). unfold upper_snake.
    f_equal. apply replace_id, replace_without. discriminate.
  - intros Hkey. unfold env_key. f_equal.
    rewrite !(upper_ascii _ Hascii).
    + rewrite List.map_map. apply List.map_ext. apply ascii_upper_idempotent.
    + exact Hkey.
    + apply Forall_forall. intros c Hc.
      apply list_elem_of_In, in_map_iff in Hc. destruct Hc as [d [<- Hd]].
      rewrite Forall_forall in Hkey.
      apply ascii_upper_ascii, Hkey, list_elem_of_In, Hd.
Qed.

Lemma ascii_uppercase_table :
  (forall c, c < 128 -> ascii_uppercase c = [ascii_upper c]) /\
  (forall c, 128 <= c -> dash ∉ ascii_uppercase c).
Proof.
  split; [intros c _; reflexivity|].
  intros c Hc. unfold ascii_uppercase. apply not_elem_of_cons.
  split; [|apply not_elem_of_nil].
  intros H. symmetry in H. apply ascii_upper_dash in H.
  subst c. vm_compute in Hc. apply Hc. reflexivity.
Defined.

Lemma keys_collide_witness :
  env_key ascii_uppercase (lit "api_key") = env_key ascii_uppercase (lit "api-key").
Proof.
  exact (proj1 (keys_collide ascii_uppercase (lit "api-key")
                  (proj1 ascii_uppercase_table) (proj2 ascii_uppercase_table))).
Defined.

(** X19: an env-var key never has a ["-"], whatever the key and the
    uppercase table are; made of an ASCII key, it has the length of the key
    and no small ASCII letter. *)
Theorem env_key_shape uppercase key :
  (dash ∉ env_key uppercase key) /\
  ((forall c, c < 128 -> uppercase c = [ascii_upper c]) ->
   Forall (fun c => c < 128) key ->
   length (env_key uppercase key) = length key /\
   Forall (fun c => ~ (97 <= c <= 122)) (env_key uppercase key)).
Proof.
  split; [apply env_key_dash_free|]. intros Hascii Hkey.
  unfold env_key. rewrite (upper_ascii _ Hascii _ Hkey). unfold replace.
  split; [rewrite !length_map; reflexivity|].
  apply Forall_forall. intros c Hc.
  apply list_elem_of_In, in_map_iff in Hc. destruct Hc as [d [<- Hd]].
  apply in_map_iff in Hd. destruct Hd as [e [<- _]].
  destruct (ascii_upper e =? dash); [unfold underscore; lia|].
  apply ascii_upper_not_lower.
Qed.

Lemma env_key_shape_witness :
  length (env_key ascii_uppercase (lit "system-prompt")) =
  length (lit "system-prompt").
Proof.
  apply (proj2 (env_key_shape ascii_uppercase (lit "system-prompt"))).
  - intros c _. reflexivity.
  - apply Forall_forall. intros c Hc. apply list_elem_of_In in Hc.
    vm_compute in Hc. intuition (subst; reflexivity).
Defined.

(** * Further properties of the command *)

(** Decoding undoes the encoding of one character. *)
Lemma utf8_decode_char c u rest :
  Codec.utf8_char c = Some u ->
  Codec.utf8_decode (u ++ rest) = option_map (cons c) (Codec.utf8_decode rest).
Proof.
  intros H.
  destruct (utf8_char_cases _ _ H) as [[? ->]|[[? ->]|[[? [? ->]]|[? ->]]]];
    cbn [app Codec.utf8_decode]; unfold Codec.continuation;
    repeat match goal with
           | |- context [?a <? ?b] =>
               destruct (N.ltb_spec a b); try lia
           | |- context [?a <=? ?b] =>
               destruct (N.leb_spec a b); try lia
           end;
    cbn [andb negb]; try reflexivity;
    do 2 f_equal; lia.
Qed.

(** Reading back what was written. *)
Lemma utf8_decode_encode s b :
  Codec.encode s = Some b -> Codec.utf8_decode b = Some s.
Proof.
  revert b. induction s as [|c s IH]; intros b; cbn [Codec.encode].
  - intros [= <-]. reflexivity.
  - destruct (Codec.utf8_char c) as [u|] eqn:Eu; [|discriminate].
    destruct (Codec.encode s) as [bs|]; [|discriminate].
    intros [= <-]. rewrite (utf8_decode_char _ _ _ Eu), (IH _ eq_refl).
    reflexivity.
Qed.

Lemma universal_newlines_free s :
  (13 ∉ universal_newlines s) /\ (forall c, 13 ∉ universal_newlines (c :: s)).
Proof.
  induction s as [|d s [IH1 IH2]].
  - split; [apply not_elem_of_nil|]. intros c. cbn [universal_newlines].
    destruct (N.eqb_spec c 13); apply not_elem_of_cons;
      (split; [unfold nl; congruence | apply not_elem_of_nil]).
  - split; [apply IH2|]. intros c.
    change (universal_newlines (c :: d :: s))
      with (if c =? 13
            then nl :: (if d =? nl then universal_newlines s
                        else universal_newlines (d :: s))
            else c :: universal_newlines (d :: s)).
    destruct (N.eqb_spec c 13).
    + apply not_elem_of_cons. split; [unfold nl; discriminate|].
      destruct (d =? nl); [exact IH1 | apply IH2].
    + apply not_elem_of_cons. split; [congruence | apply IH2].
Qed.

Lemma universal_newlines_id s : 13 ∉ s -> universal_newlines s = s.
Proof.
  induction s as [|c s IH]; intros H; [reflexivity|].
  apply not_elem_of_cons in H. destruct H as [Hc H].
  cbn [universal_newlines].
  destruct (N.eqb_spec c 13) as [->|_]; [contradiction|].
  rewrite (IH H). reflexivity.
Qed.

(** A text read from a file has no carriage return. *)
Lemma read_text_free data content : read_text data = Some content -> 13 ∉ content.
Proof.
  unfold read_text. destruct (Codec.utf8_decode data) as [s|]; [|discriminate].
  intros [= <-]. apply universal_newlines_free.
Qed.

(** A text without carriage return is read as it was written. *)
Lemma read_text_encode s b :
  Codec.encode s = Some b -> 13 ∉ s -> read_text b = Some s.
Proof.
  intros He Hs. unfold read_text. rewrite (utf8_decode_encode _ _ He).
  cbn [option_map]. rewrite (universal_newlines_id _ Hs). reflexivity.
Qed.

Lemma elem_of_join sep items c :
  c ∈ join [sep] items -> c = sep \/ exists item, item ∈ items /\ c ∈ item.
Proof.
  induction items as [|x items IH]; [intros H; inversion H|].
  destruct items as [|y items].
  - intros H. right. exists x. split; [left | exact H].
  - rewrite join_cons by discriminate. rewrite elem_of_app, elem_of_cons.
    intros [H|[H|H]].
    + right. exists x. split; [left | exact H].
    + left. exact H.
    + destruct (IH H) as [E|[item [Hin Hc]]]; [left; exact E|].
      right. exists item. split; [right; exact Hin | exact Hc].
Qed.

Lemma elem_of_piece sep s piece c : piece ∈ split sep s -> c ∈ piece -> c ∈ s.
Proof.
  intros Hp Hc. destruct (split_piece_part _ _ _ Hp) as [a [b ->]].
  rewrite !elem_of_app. right. left. exact Hc.
Qed.

(** The patch brings no carriage return into a text. *)
Lemma new_content_free content lines :
  13 ∉ content -> Forall (fun line => 13 ∉ line) lines ->
  13 ∉ new_content content lines.
Proof.
  intros Hc Hl.
  assert (Hsec : 13 ∉ new_section lines).
  { intros H. apply elem_of_join in H. destruct H as [H|[item [Hin H]]];
      [discriminate|].
    apply elem_of_cons in Hin. destruct Hin as [->|Hin].
    - revert H. apply (bool_decide_unpack _). vm_compute. exact I.
    - apply elem_of_app in Hin. destruct Hin as [Hin|Hin].
      + rewrite Forall_forall in Hl. exact (Hl _ Hin H).
      + apply list_elem_of_singleton in Hin. subst item.
        revert H. apply (bool_decide_unpack _). vm_compute. exact I. }
  unfold new_content.
  destruct (str_in START_MARKER content && str_in END_MARKER content).
  - intros H. apply elem_of_join in H. destruct H as [H|[item [Hin H]]];
      [discriminate|].
    apply loop_output in Hin. destruct Hin as [Hin|[->|[Hin _]]].
    + inversion Hin.
    + exact (Hsec H).
    + exact (Hc (elem_of_piece _ _ _ _ Hin H)).
  - rewrite !elem_of_app. intros [H|[H|[H|H]]].
    + destruct (negb (endswith [nl] content)); [|exact (Hc H)].
      apply elem_of_app in H. destruct H as [H|H]; [exact (Hc H)|].
      apply list_elem_of_singleton in H. discriminate.
    + apply list_elem_of_singleton in H. discriminate.
    + exact (Hsec H).
    + apply list_elem_of_singleton in H. discriminate.
Qed.

(** Two calls of [update_env_file] in a row, the first of which returns, on
    a file with both sentinels or neither. *)
Lemma files_after_two_updates lines env_file w i data content :
  Forall (fun line => marker_free line = true) lines ->
  Forall (fun line => 13 ∉ line) lines ->
  stat w env_file = Some (i, RegularFile data) ->
  read_text data = Some content ->
  xorb (str_in START_MARKER content) (str_in END_MARKER content) = false ->
  fst (update_env_file env_file lines w) = Returned ->
  exists data',
    Codec.encode (new_content content lines) = Some data' /\
    snd (update_env_file env_file lines w) =
      {| files := files w;
         disk := <[i := RegularFile data']> (disk w);
         stdout := stdout w
                   ++ [check_mark :: lit " Prompts updated in " ++ env_file];
         stderr := stderr w |} /\
    fst (update_env_file env_file lines
           (snd (update_env_file env_file lines w))) = Returned /\
    disk (snd (update_env_file env_file lines
                 (snd (update_env_file env_file lines w)))) =
    <[i := RegularFile data']> (disk w).
Proof.
  intros HL Hcr Hstat Hread Hxor Hret.
  destruct (update_env_file_cases env_file lines w)
    as [[_ E]|[[? [_ E]]|[[? [? [_ [_ E]]]]|[[? [? [? [_ [_ [_ E]]]]]]
       |[[? [? [? [? [_ [_ [_ [_ E]]]]]]]]
       |[i' [data0 [content' [data' [Hstat' [Hread' [Henc [Hpath E]]]]]]]]]]]]];
    rewrite E in Hret; try discriminate.
  rewrite Hstat in Hstat'. injection Hstat' as <- <-.
  rewrite Hread in Hread'. injection Hread' as <-.
  exists data'. split; [exact Henc|]. rewrite E. cbn [snd].
  split; [reflexivity|].
  assert (Hnew : new_content (new_content content lines) lines =
                 new_content content lines).
  { destruct (str_in START_MARKER content) eqn:Hs,
             (str_in END_MARKER content) eqn:He; try discriminate.
    - apply new_content_idempotent; assumption.
    - apply new_content_append_fixed; [|exact HL].
      apply marker_free_true. split; assumption. }
  rewrite (update_env_file_returns env_file lines _ i data'
             (new_content content lines) data').
  - cbn [fst snd disk]. split; [reflexivity | apply insert_insert_eq].
  - unfold stat in *. cbn [files disk].
    destruct (files w !! env_file) as [j|]; [|discriminate].
    destruct (disk w !! j); [|discriminate]. injection Hstat as -> _.
    rewrite lookup_insert_eq. reflexivity.
  - apply (read_text_encode _ _ Henc).
    apply new_content_free; [exact (read_text_free _ _ Hread) | exact Hcr].
  - rewrite Hnew. exact Henc.
  - exact Hpath.
Qed.

Lemma update_env_file_names env_file lines w :
  files (snd (update_env_file env_file lines w)) = files w.
Proof.
  destruct (update_env_file_cases env_file lines w)
    as [[_ E]|[[? [_ E]]|[[? [? [_ [_ E]]]]|[[? [? [? [_ [_ [_ E]]]]]]
       |[[? [? [? [? [_ [_ [_ [_ E]]]]]]]]
       |[? [? [? [? [_ [_ [_ [_ E]]]]]]]]]]]]];
    rewrite E; reflexivity.
Qed.

Lemma main_unfold uppercase safe_load argv w :
  main uppercase safe_load argv w =
  match stat w (lit "prompts.yaml") with
  | None =>
      (Exited 1,
       {| files := files w;
          disk := disk w;
          stdout := stdout w;
          stderr := stderr w
                    ++ [lit "Error: " ++ lit "prompts.yaml" ++ lit " not found"] |})
  | Some _ =>
      match encode_prompts_file uppercase safe_load (lit "prompts.yaml") w with
      | inr prompt_lines => update_env_file (env_file_of argv) prompt_lines w
      | inl e => (Raised e, w)
      end
  end.
Proof.
  unfold main.
  change (path_str (lit "prompts.yaml")) with (lit "prompts.yaml").
  reflexivity.
Qed.

(** The prompts are encoded from what the prompts file holds. *)
Lemma encode_prompts_file_lines uppercase safe_load prompts_file w lines :
  encode_prompts_file uppercase safe_load prompts_file w = inr lines <->
  exists j data prompts,
    stat w prompts_file = Some (j, RegularFile data) /\
    safe_load data = Some prompts /\
    encode_prompts uppercase prompts = Some lines.
Proof.
  unfold encode_prompts_file. split.
  - destruct (stat w prompts_file) as [[j [data|]]|]; try discriminate.
    destruct (safe_load data) as [prompts|] eqn:Hl; [|discriminate].
    destruct (encode_prompts uppercase prompts) as [lines'|] eqn:He;
      [|discriminate].
    intros [= <-]. exists j, data, prompts. repeat split; assumption.
  - intros [j [data [prompts [-> [-> ->]]]]]. reflexivity.
Qed.

Lemma encode_prompts_file_stat uppercase safe_load prompts_file w w' :
  stat w' prompts_file = stat w prompts_file ->
  encode_prompts_file uppercase safe_load prompts_file w' =
  encode_prompts_file uppercase safe_load prompts_file w.
Proof. intros H. unfold encode_prompts_file. rewrite H. reflexivity. Qed.

(** X8: on a regular file whose text contains both sentinels or neither,
    when a call of [update_env_file] with lines of the encoder that have no
    carriage return returns, a second call returns too and leaves the names
    and the disk as the first call left them. *)
Theorem update_env_file_twice uppercase prompts lines env_file w i data content :
  encode_prompts uppercase prompts = Some lines ->
  Forall (fun line => 13 ∉ line) lines ->
  stat w env_file = Some (i, RegularFile data) ->
  read_text data = Some content ->
  xorb (str_in START_MARKER content) (str_in END_MARKER content) = false ->
  fst (update_env_file env_file lines w) = Returned ->
  fst (update_env_file env_file lines (snd (update_env_file env_file lines w)))
    = Returned /\
  files (snd (update_env_file env_file lines
                (snd (update_env_file env_file lines w)))) =
  files (snd (update_env_file env_file lines w)) /\
  disk (snd (update_env_file env_file lines
               (snd (update_env_file env_file lines w)))) =
  disk (snd (update_env_file env_file lines w)).
Proof.
  intros Henc Hcr Hstat Hread Hxor Hret.
  destruct (files_after_two_updates lines env_file w i data content
              (encode_prompts_marker_free _ _ _ Henc) Hcr Hstat Hread Hxor Hret)
    as [data' [_ [Hw1 [Hret2 Hdisk2]]]].
  split; [exact Hret2|]. split; [rewrite !update_env_file_names; reflexivity|].
  rewrite Hdisk2, Hw1. reflexivity.
Qed.

Lemma sample_lines_free : Forall (fun line : str => 13 ∉ line) sample_lines.
Proof.
  repeat constructor. apply (bool_decide_unpack _). vm_compute. exact I.
Defined.

Lemma update_env_file_twice_witness :
  disk (snd (update_env_file sample_path sample_lines
               (snd (update_env_file sample_path sample_lines
                       (sample_world sample_env))))) =
  disk (snd (update_env_file sample_path sample_lines (sample_world sample_env))).
Proof.
  apply (update_env_file_twice ascii_uppercase sample_prompts sample_lines
           sample_path (sample_world sample_env) 1%nat
           (default [] (Codec.encode sample_env)) sample_env).
  - vm_compute. reflexivity.
  - exact sample_lines_free.
  - apply stat_sample_world.
  - vm_compute. reflexivity.
  - vm_compute. reflexivity.
  - rewrite (update_env_file_returns sample_path sample_lines _ 1%nat
               (default [] (Codec.encode sample_env)) sample_env
               (default [] (Codec.encode (new_content sample_env sample_lines)))).
    + reflexivity.
    + apply stat_sample_world.
    + vm_compute. reflexivity.
    + vm_compute. reflexivity.
    + vm_compute. eexists. reflexivity.
Defined.




(** X12: running the command twice is running it once, for the files: when
    the target is another file than the prompts file, its text has both
    sentinels or neither, no encoded line has a carriage return and the
    first run returns, the second run returns too and leaves the names and
    the disk as the first run left them. *)
Theorem main_twice uppercase safe_load argv w i data content :
  files w !! lit "prompts.yaml" <> files w !! env_file_of argv ->
  stat w (env_file_of argv) = Some (i, RegularFile data) ->
  read_text data = Some content ->
  xorb (str_in START_MARKER content) (str_in END_MARKER content) = false ->
  (forall lines,
     encode_prompts_file uppercase safe_load (lit "prompts.yaml") w = inr lines ->
     Forall (fun line => 13 ∉ line) lines) ->
  fst (main uppercase safe_load argv w) = Returned ->
  fst (main uppercase safe_load argv (snd (main uppercase safe_load argv w)))
    = Returned /\
  files (snd (main uppercase safe_load argv
                (snd (main uppercase safe_load argv w)))) =
  files (snd (main uppercase safe_load argv w)) /\
  disk (snd (main uppercase safe_load argv
               (snd (main uppercase safe_load argv w)))) =
  disk (snd (main uppercase safe_load argv w)).
Proof.
  intros Hdiff Hstat Hread Hxor Hcr.
  rewrite (main_unfold _ _ _ w).
  destruct (stat w (lit "prompts.yaml")) as [st|] eqn:Hp; [|discriminate].
  destruct (encode_prompts_file uppercase safe_load (lit "prompts.yaml") w)
    as [e|lines] eqn:Hf; [discriminate|].
  intros Hret.
  assert (HL : Forall (fun line => marker_free line = true) lines).
  { apply encode_prompts_file_lines in Hf.
    destruct Hf as [? [? [prompts [_ [_ He]]]]].
    exact (encode_prompts_marker_free _ _ _ He). }
  destruct (files_after_two_updates lines (env_file_of argv) w i data content
              HL (Hcr _ eq_refl) Hstat Hread Hxor Hret)
    as [data' [_ [Hw1 [Hret2 Hdisk2]]]].
  assert (Hp1 : stat (snd (update_env_file (env_file_of argv) lines w))
                     (lit "prompts.yaml") = stat w (lit "prompts.yaml")).
  { rewrite Hw1. unfold stat in *. cbn [files disk].
    destruct (files w !! lit "prompts.yaml") as [j|] eqn:Ej; [|reflexivity].
    destruct (files w !! env_file_of argv) as [i'|] eqn:Ei; [|discriminate].
    destruct (disk w !! i'); [|discriminate]. injection Hstat as -> _.
    rewrite lookup_insert_ne; [reflexivity|]. congruence. }
  rewrite main_unfold, Hp1, Hp.
  rewrite (encode_prompts_file_stat _ _ _ _ _ Hp1), Hf.
  split; [exact Hret2|]. split; [rewrite !update_env_file_names; reflexivity|].
  rewrite Hdisk2, Hw1. reflexivity.
Qed.

Lemma stat_sample_project content :
  stat (sample_project content) (lit "prompts.yaml") =
    Some (2%nat, RegularFile []) /\
  stat (sample_project content) sample_path =
    Some (1%nat, RegularFile (default [] (Codec.encode content))).
Proof.
  unfold stat, sample_project. cbn [files disk]. split.
  - rewrite lookup_insert_eq, lookup_insert_eq. reflexivity.
  - rewrite lookup_insert_ne by (vm_compute; discriminate).
    rewrite lookup_singleton_eq.
    rewrite lookup_insert_ne by discriminate.
    rewrite lookup_singleton_eq. reflexivity.
Qed.

Lemma sample_project_lines content :
  encode_prompts_file ascii_uppercase sample_load (lit "prompts.yaml")
    (sample_project content) = inr sample_lines.
Proof.
  apply encode_prompts_file_lines.
  exists 2%nat, [], sample_prompts.
  split; [apply stat_sample_project|].
  repeat split; vm_compute; reflexivity.
Qed.

Lemma main_twice_witness :
  let run1 := main ascii_uppercase sample_load [lit "update-prompts.py"]
                (sample_project sample_env) in
  let run2 := main ascii_uppercase sample_load [lit "update-prompts.py"]
                (snd run1) in
  fst run2 = Returned /\ files (snd run2) = files (snd run1) /\
  disk (snd run2) = disk (snd run1).
Proof.
  apply (main_twice ascii_uppercase sample_load [lit "update-prompts.py"]
           (sample_project sample_env) 1%nat
           (default [] (Codec.encode sample_env)) sample_env).
  - change (env_file_of [lit "update-prompts.py"]) with sample_path.
    unfold sample_project. cbn [files].
    rewrite lookup_insert_eq.
    rewrite lookup_insert_ne by (vm_compute; discriminate).
    rewrite lookup_singleton_eq. discriminate.
  - apply stat_sample_project.
  - vm_compute. reflexivity.
  - vm_compute. reflexivity.
  - intros lines. rewrite sample_project_lines. intros [= <-].
    exact sample_lines_free.
  - rewrite main_unfold, (proj1 (stat_sample_project sample_env)),
      sample_project_lines.
    change (env_file_of [lit "update-prompts.py"]) with sample_path.
    rewrite (update_env_file_returns sample_path sample_lines
               (sample_project sample_env) 1%nat
               (default [] (Codec.encode sample_env)) sample_env
               (default [] (Codec.encode (new_content sample_env sample_lines)))).
    + reflexivity.
    + apply stat_sample_project.
    + vm_compute. reflexivity.
    + vm_compute. reflexivity.
    + vm_compute. eexists. reflexivity.
Defined.

(** * Properties of the poll generator *)

Section PollFacts.

Import Polls.

Variable format : str -> list (str * str) -> result str.

Lemma choice_raises {A : Type} (seq : list A) r e r' :
  choice seq r = (Raise e, r') -> e = IndexError.
Proof.
  unfold choice. destruct (next r) as [d r0].
  destruct (seq !! (d mod length seq)%nat); intros [= <- _]; reflexivity.
Qed.

Lemma choice_element {A : Type} (seq : list A) r x r' :
  choice seq r = (Ok x, r') -> x ∈ seq.
Proof.
  unfold choice. destruct (next r) as [d r0].
  destruct (seq !! (d mod length seq)%nat) as [y|] eqn:E; intros [= <- _].
  exact (list_elem_of_lookup_2 _ _ _ E).
Qed.

(** [pick] gives as many elements as asked for, from different positions. *)
Lemma pick_length {A : Type} k (pool : list A) r :
  (k <= length pool)%nat -> length (fst (pick k pool r)) = k.
Proof.
  revert pool r. induction k as [|k IH]; intros pool r Hk; [reflexivity|].
  cbn [pick]. destruct (next r) as [d r0].
  assert (Hi : (d mod length pool < length pool)%nat)
    by (apply Nat.mod_upper_bound; lia).
  destruct (lookup_lt_is_Some_2 _ _ Hi) as [x Hx]. rewrite Hx.
  specialize (IH (delete (d mod length pool)%nat pool) r0).
  destruct (pick k (delete (d mod length pool)%nat pool) r0) as [rest r1].
  cbn [fst length] in *. rewrite IH; [reflexivity|].
  rewrite length_delete by eauto. lia.
Qed.

Lemma pick_submseteq {A : Type} k (pool : list A) r :
  fst (pick k pool r) ⊆+ pool.
Proof.
  revert pool r. induction k as [|k IH]; intros pool r; cbn [pick].
  - apply submseteq_nil_l.
  - destruct (next r) as [d r0].
    destruct (pool !! (d mod length pool)%nat) as [x|] eqn:Hx;
      [|apply submseteq_nil_l].
    specialize (IH (delete (d mod length pool)%nat pool) r0).
    destruct (pick k (delete (d mod length pool)%nat pool) r0) as [rest r1].
    cbn [fst] in *. apply submseteq_cons_l.
    exists (delete (d mod length pool)%nat pool).
    split; [exact (delete_Permutation _ _ _ Hx) | exact IH].
Qed.

Lemma sample_selected {A : Type} (population : list A) k r selected r' :
  sample population k r = (Ok selected, r') ->
  (0 <= k <= Z.of_nat (length population))%Z /\
  length selected = Z.to_nat k /\ selected ⊆+ population.
Proof.
  unfold sample.
  destruct (Z.ltb_spec k 0); [intros [=]|].
  destruct (Z.ltb_spec (Z.of_nat (length population)) k); [intros [=]|].
  cbn [orb].
  pose proof (pick_length (Z.to_nat k) population r) as Hl.
  pose proof (pick_submseteq (Z.to_nat k) population r) as Hs.
  destruct (pick (Z.to_nat k) population r) as [l r0]. cbn [fst] in *.
  intros [= <- _]. split; [lia|]. split; [apply Hl; lia | exact Hs].
Qed.

(** With a category that is a key of user objects, the function goes on
    with that category. *)
Lemma get_category data category users :
  category <> POLL_TEMPLATES ->
  by_category data !! category = Some users ->
  get data category = Some (Users users).
Proof.
  intros Hne Hc. unfold get. rewrite bool_decide_eq_false_2 by exact Hne.
  rewrite Hc. reflexivity.
Qed.

Lemma get_templates data :
  get data POLL_TEMPLATES = Texts <$> poll_templates data.
Proof. unfold get. rewrite bool_decide_eq_true_2 by reflexivity. reflexivity. Qed.

End PollFacts.

(** X20: without the key ["poll_templates"] in the data, the function never
    returns a poll request: whatever the category, the number of options and
    the random draws, it raises. *)
Theorem poll_needs_templates format data category num_options r poll :
  Polls.poll_templates data = None ->
  Polls.generate_poll_request format data category num_options r <> Polls.Ok poll.
Proof.
  intros Hnone. unfold Polls.generate_poll_request.
  assert (Hitem : Polls.item data Polls.POLL_TEMPLATES = Polls.Raise Polls.KeyError).
  { unfold Polls.item. rewrite get_templates, Hnone. reflexivity. }
  rewrite Hitem. repeat case_match; discriminate.
Qed.

Lemma poll_needs_templates_witness :
  Polls.generate_poll_request sample_format
    (Polls.UsersData (Polls.by_category sample_data) None)
    (Some (lit "oss_legends")) 2 (constant_rng 0)
  <> Polls.Ok [].
Proof.
  apply poll_needs_templates. reflexivity.
Defined.

Lemma lstrip_head s c : head (lstrip s) = Some c -> is_space c = false.
Proof.
  induction s as [|d s IH]; cbn [lstrip]; [discriminate|].
  destruct (is_space d) eqn:E; [exact IH|].
  intros [= <-]. exact E.
Qed.

Lemma last_rev (s : str) : last (rev s) = head s.
Proof. destruct s as [|c s]; [reflexivity|]. cbn [rev]. apply last_snoc. Qed.

Lemma head_rev (s : str) : head (rev s) = last s.
Proof.
  destruct s as [|c s _] using rev_ind; [reflexivity|].
  rewrite rev_app_distr, last_snoc. reflexivity.
Qed.

(** A trimmed text has no white space at either end. *)
Lemma strip_ends s :
  (forall c, head (strip s) = Some c -> is_space c = false) /\
  (forall c, last (strip s) = Some c -> is_space c = false).
Proof.
  unfold strip. split; intros c.
  - rewrite head_rev. intros Hl.
    destruct (lstrip_part (rev (lstrip s))) as [a Ha].
    assert (Hlast : last (rev (lstrip s)) = Some c).
    { rewrite Ha, last_app, Hl. reflexivity. }
    rewrite last_rev in Hlast. exact (lstrip_head _ _ Hlast).
  - rewrite last_rev. apply lstrip_head.
Qed.

Lemma generate_ok_strip format data category num_options r poll :
  Polls.generate_poll_request format data category num_options r = Polls.Ok poll ->
  exists text, poll = strip text.
Proof.
  unfold Polls.generate_poll_request.
  repeat case_match; try discriminate; intros [= <-]; eexists; reflexivity.
Qed.

(** X21: a poll request that the function returns has no white space at its
    beginning nor at its end. *)
Theorem poll_request_is_trimmed format data category num_options r poll :
  Polls.generate_poll_request format data category num_options r = Polls.Ok poll ->
  (forall c, head poll = Some c -> is_space c = false) /\
  (forall c, last poll = Some c -> is_space c = false).
Proof.
  intros H. destruct (generate_ok_strip _ _ _ _ _ _ H) as [text ->].
  apply strip_ends.
Qed.

Lemma poll_request_is_trimmed_witness :
  exists poll,
    Polls.generate_poll_request sample_format sample_data
      (Some (lit "oss_legends")) 2 (constant_rng 0) = Polls.Ok poll /\
    (forall c, head poll = Some c -> is_space c = false) /\
    (forall c, last poll = Some c -> is_space c = false).
Proof.
  eexists. split; [vm_compute; reflexivity|].
  apply (poll_request_is_trimmed sample_format sample_data
           (Some (lit "oss_legends")) 2 (constant_rng 0)).
  vm_compute. reflexivity.
Defined.

(** X22: with a negative number of options and a category of the data, the
    function raises [ValueError], from [random.sample]. *)
Theorem poll_negative_options_raise format data category users num_options r :
  category <> [] -> category <> Polls.POLL_TEMPLATES ->
  Polls.by_category data !! category = Some users ->
  (num_options < 0)%Z ->
  Polls.generate_poll_request format data (Some category) num_options r =
  Polls.Raise Polls.ValueError.
Proof.
  intros Hne Hnt Hc Hn. unfold Polls.generate_poll_request.
  destruct category as [|c cs]; [contradiction|].
  rewrite (get_category _ _ _ Hnt Hc).
  rewrite bool_decide_eq_true_2 by eauto.
  change (default [] (Some (c :: cs))) with (c :: cs).
  unfold Polls.item at 1. rewrite (get_category _ _ _ Hnt Hc).
  cbn [Polls.entry_items].
  destruct (Z.ltb_spec (Z.of_nat (length users)) num_options); [lia|].
  unfold Polls.sample. destruct (Z.ltb_spec num_options 0); [|lia].
  reflexivity.
Qed.

Lemma poll_negative_options_raise_witness :
  Polls.generate_poll_request sample_format sample_data
    (Some (lit "oss_legends")) (-1) (constant_rng 0) =
  Polls.Raise Polls.ValueError.
Proof.
  apply (poll_negative_options_raise sample_format sample_data
           (lit "oss_legends") [lit "torvalds"; lit "gvanrossum"; lit "antirez"]).
  - discriminate.
  - vm_compute. discriminate.
  - apply lookup_singleton_eq.
  - reflexivity.
Defined.

(** The first steps of the function for a category of the data. *)
Ltac known_category Hnt Hc :=
  unfold Polls.generate_poll_request;
  match goal with
  | |- context [Some (?c :: ?cs)] =>
      rewrite (get_category _ _ _ Hnt Hc);
      rewrite bool_decide_eq_true_2 by eauto;
      change (default [] (Some (c :: cs))) with (c :: cs);
      unfold Polls.item at 1; rewrite (get_category _ _ _ Hnt Hc);
      cbn [Polls.entry_items Polls.entry_with Polls.usernames_of]
  end.

(** X23: a category with fewer than two users gives no poll request: for
    every number of options that is not negative, and whatever the templates
    and the draws are, the function raises [IndexError]. *)
Theorem poll_needs_two_users format data category users templates num_options r :
  category <> [] -> category <> Polls.POLL_TEMPLATES ->
  Polls.by_category data !! category = Some users ->
  Polls.poll_templates data = Some templates ->
  (length users < 2)%nat ->
  (0 <= num_options)%Z ->
  Polls.generate_poll_request format data (Some category) num_options r =
  Polls.Raise Polls.IndexError.
Proof.
  intros Hne Hnt Hc Hts Hlen Hn.
  destruct category as [|c cs]; [contradiction|].
  known_category Hnt Hc.
  set (n := if (Z.of_nat (length users) <? num_options)%Z
            then Z.of_nat (length users) else num_options).
  assert (Hn' : (0 <= n <= Z.of_nat (length users))%Z).
  { unfold n. destruct (Z.ltb_spec (Z.of_nat (length users)) num_options); lia. }
  destruct (Polls.sample users n r) as [[selected|e] r1] eqn:Es.
  2:{ unfold Polls.sample in Es.
      destruct (Z.ltb_spec n 0); [lia|].
      destruct (Z.ltb_spec (Z.of_nat (length users)) n); [lia|].
      cbn [orb] in Es. destruct (Polls.pick (Z.to_nat n) users r). discriminate. }
  destruct (sample_selected _ _ _ _ _ Es) as [_ [Hsel _]].
  unfold Polls.item. rewrite get_templates, Hts. cbn [fmap option_fmap option_map].
  cbn [Polls.entry_items].
  match goal with
  | |- context [Polls.choice ?seq r1] =>
      destruct (Polls.choice seq r1) as [[template|e] r2] eqn:Ec
  end.
  - destruct selected as [|x [|y more]]; [reflexivity | reflexivity|].
    cbn [length] in Hsel. lia.
  - rewrite (choice_raises _ _ _ _ Ec). reflexivity.
Qed.

Lemma poll_needs_two_users_witness :
  Polls.generate_poll_request sample_format
    (Polls.UsersData {[ lit "oss_legends" := [lit "torvalds"] ]}
       (Polls.poll_templates sample_data))
    (Some (lit "oss_legends")) 2 (constant_rng 0) =
  Polls.Raise Polls.IndexError.
Proof.
  apply (poll_needs_two_users sample_format _ (lit "oss_legends")
           [lit "torvalds"]
           [lit " Who of {category}: {user1} or {user2}? ";
            lit "{user1}, {user2} or {user3}?"]).
  - discriminate.
  - vm_compute. discriminate.
  - apply lookup_singleton_eq.
  - reflexivity.
  - cbn [length]. lia.
  - lia.
Defined.

(** X24: what a returned poll request is made of, for a category of the data:
    a template of the data, formatted with the category name and the names of
    at least two users taken at different positions of the category, as many
    as asked for or as there are, and trimmed.  The field [user3] is the
    third of these users whenever it is passed, and with two users the
    template is one in which ["{user3}"] does not occur. *)
Theorem poll_request_sound format data category users num_options r poll :
  category <> [] -> category <> Polls.POLL_TEMPLATES ->
  Polls.by_category data !! category = Some users ->
  Polls.generate_poll_request format data (Some category) num_options r =
    Polls.Ok poll ->
  exists templates template selected text,
    Polls.poll_templates data = Some templates /\
    template ∈ templates /\
    selected ⊆+ users /\
    Z.of_nat (length selected) = Z.min num_options (Z.of_nat (length users)) /\
    (2 <= length selected)%nat /\
    (length selected = 2%nat -> str_in (lit "{user3}") template = false) /\
    format template
      (Polls.keyword_arguments category
         (List.map (fun name => lit "@" ++ name) selected)) = Polls.Ok text /\
    poll = strip text.
Proof.
  intros Hne Hnt Hc.
  destruct category as [|c cs]; [contradiction|].
  known_category Hnt Hc.
  set (n := if (Z.of_nat (length users) <? num_options)%Z
            then Z.of_nat (length users) else num_options).
  assert (Hmin : n = Z.min num_options (Z.of_nat (length users))).
  { unfold n. destruct (Z.ltb_spec (Z.of_nat (length users)) num_options); lia. }
  destruct (Polls.sample users n r) as [[selected|e] r1] eqn:Es; [|discriminate].
  destruct (sample_selected _ _ _ _ _ Es) as [Hrange [Hsel Hsub]].
  unfold Polls.item. rewrite get_templates.
  destruct (Polls.poll_templates data) as [templates|];
    cbn [fmap option_fmap option_map]; [|discriminate].
  cbn [Polls.entry_items].
  match goal with
  | |- context [Polls.choice ?seq r1] =>
      destruct (Polls.choice seq r1) as [[template|e] r2] eqn:Ec; [|discriminate]
  end.
  apply choice_element in Ec.
  destruct selected as [|x [|y more]]; [discriminate | discriminate|].
  cbn [List.map Polls.index lookup list_lookup].
  destruct (Z.eqb_spec n 2) as [Hn2|Hn2].
  - assert (more = []) by (destruct more; [reflexivity | cbn [length] in Hsel; lia]).
    subst more.
    destruct (format template _) as [text|e] eqn:Ef; [|discriminate].
    intros [= <-]. exists templates, template, [x; y], text.
    apply list_elem_of_In, List.filter_In in Ec. destruct Ec as [Hin Hno].
    apply negb_true_iff in Hno.
    split; [reflexivity|]. split; [apply list_elem_of_In, Hin|].
    split; [exact Hsub|]. split; [cbn [length] in *; lia|].
    split; [cbn [length]; lia|]. split; [intros _; exact Hno|].
    split; [exact Ef | reflexivity].
  - destruct more as [|z more]; [cbn [length] in Hsel; lia|].
    cbn [length List.map]. 
    replace (2 <? S (S (S (length (List.map (fun name => lit "@" ++ name) more)))))%nat
      with true by (symmetry; apply Nat.ltb_lt; lia).
    cbn [Polls.index lookup list_lookup].
    destruct (format template _) as [text|e] eqn:Ef; [|discriminate].
    intros [= <-]. exists templates, template, (x :: y :: z :: more), text.
    split; [reflexivity|]. split; [exact Ec|].
    split; [exact Hsub|]. split; [lia|].
    split; [cbn [length]; lia|]. split; [cbn [length]; lia|].
    split; [exact Ef | reflexivity].
Qed.

Lemma poll_request_sound_witness :
  exists poll templates template selected text,
    Polls.generate_poll_request sample_format sample_data
      (Some (lit "oss_legends")) 3 (constant_rng 1) = Polls.Ok poll /\
    Polls.poll_templates sample_data = Some templates /\
    template ∈ templates /\
    selected ⊆+ [lit "torvalds"; lit "gvanrossum"; lit "antirez"] /\
    (2 <= length selected)%nat /\
    sample_format template
      (Polls.keyword_arguments (lit "oss_legends")
         (List.map (fun name => lit "@" ++ name) selected)) = Polls.Ok text /\
    poll = strip text.
Proof.
  assert (Hrun : Polls.generate_poll_request sample_format sample_data
                   (Some (lit "oss_legends")) 3 (constant_rng 1) =
                 Polls.Ok (lit "@gvanrossum, @antirez or @torvalds?"))
    by (vm_compute; reflexivity).
  destruct (poll_request_sound sample_format sample_data (lit "oss_legends")
              [lit "torvalds"; lit "gvanrossum"; lit "antirez"] 3 (constant_rng 1)
              (lit "@gvanrossum, @antirez or @torvalds?"))
    as [templates [template [selected [text [H1 [H2 [H3 [_ [H5 [_ [H7 H8]]]]]]]]]]].
  - discriminate.
  - vm_compute. discriminate.
  - apply lookup_singleton_eq.
  - exact Hrun.
  - exists (lit "@gvanrossum, @antirez or @torvalds?"), templates, template,
      selected, text.
    repeat split; assumption.
Defined.

Lemma texts_category_raise format data c cs templates num_options r :
  Polls.get data (c :: cs) = Some (Polls.Texts templates) ->
  templates <> [] ->
  (1 <= num_options)%Z ->
  Polls.generate_poll_request format data (Some (c :: cs)) num_options r =
  Polls.Raise Polls.TypeError.
Proof.
  intros Hget Hne Hn. unfold Polls.generate_poll_request.
  rewrite Hget. rewrite bool_decide_eq_true_2 by eauto.
  change (default [] (Some (c :: cs))) with (c :: cs).
  unfold Polls.item at 1. rewrite Hget. cbn [Polls.entry_items Polls.entry_with].
  set (n := if (Z.of_nat (length templates) <? num_options)%Z
            then Z.of_nat (length templates) else num_options).
  assert (Hn' : (1 <= n <= Z.of_nat (length templates))%Z).
  { unfold n. destruct templates; [contradiction|]. cbn [length].
    destruct (Z.ltb_spec (Z.of_nat (S (length templates))) num_options); lia. }
  destruct (Polls.sample templates n r) as [[selected|e] r1] eqn:Es.
  - destruct (sample_selected _ _ _ _ _ Es) as [_ [Hsel _]].
    destruct selected as [|x selected]; [cbn [length] in Hsel; lia|].
    reflexivity.
  - unfold Polls.sample in Es.
    destruct (Z.ltb_spec n 0); [lia|].
    destruct (Z.ltb_spec (Z.of_nat (length templates)) n); [lia|].
    cbn [orb] in Es. destruct (Polls.pick (Z.to_nat n) templates r). discriminate.
Qed.

(** X25: asked for the category ["poll_templates"], the function takes the
    templates for the users of a category and raises [TypeError] when it
    reads the user name of the first one selected: for every number of
    options of at least one, when there is a template. *)
Theorem poll_templates_as_category_raise format data templates num_options r :
  Polls.poll_templates data = Some templates ->
  templates <> [] ->
  (1 <= num_options)%Z ->
  Polls.generate_poll_request format data (Some Polls.POLL_TEMPLATES)
    num_options r = Polls.Raise Polls.TypeError.
Proof.
  intros Hts Hne Hn.
  assert (Hget : Polls.get data Polls.POLL_TEMPLATES = Some (Polls.Texts templates))
    by (rewrite get_templates, Hts; reflexivity).
  exact (texts_category_raise format data _ _ templates num_options r Hget Hne Hn).
Qed.

Lemma poll_templates_as_category_raise_witness :
  Polls.generate_poll_request sample_format sample_data
    (Some Polls.POLL_TEMPLATES) 2 (constant_rng 0) =
  Polls.Raise Polls.TypeError.
Proof.
  apply (poll_templates_as_category_raise sample_format sample_data
           [lit " Who of {category}: {user1} or {user2}? ";
            lit "{user1}, {user2} or {user3}?"]).
  - reflexivity.
  - discriminate.
  - lia.
Defined.
